(** * A shallow embedding of kor's finalizer scan (pkg/kor/finalizers.go)

    The Go package scans a cluster for namespaced objects that carry
    finalizers and a deletion timestamp, optionally deletes them, and
    renders a report.  This file embeds [CheckFinalizers], the global scan
    [getResourcesWithFinalizersPendingDeletion], the per-namespace scan
    [getNamespacedResourcesWithFinalizersPendingDeletion] and
    [GetUnusedfinalizers].

    Effects are modelled by explicit state passing: every function threads
    a log of [Event]s (discovery and list calls, delete calls, diagnostics
    written to stdout/stderr, [os.Exit]) together with its accumulator.
    Go maps are association lists with Go's map semantics (a missing key
    reads as the zero value, assignment overwrites); [range] over a Go map
    is taken in insertion order, one of the orders Go may choose.

    The API server, the dynamic client and the helpers of the package that
    live outside [finalizers.go] (SetNamespaceList, HasExcludedLabel,
    HasIncludedAge, DeleteResource, DeleteResourceWithFinalizer,
    FormatOutputFromMap, unusedResourceFormatter) and [json.MarshalIndent]
    are parameters: every theorem below holds for all of their behaviours. *)

From Stdlib Require Import String Ascii List Bool Arith Lia Permutation.
Import ListNotations.
Open Scope list_scope.

(** ** Go maps with string keys *)

Fixpoint lookup {A : Type} (k : string) (m : list (string * A)) : option A :=
  match m with
  | [] => None
  | (k', v) :: m' => if String.eqb k k' then Some v else lookup k m'
  end.

(** [m[k]]: the zero value [d] when [k] is absent. *)
Definition index {A : Type} (d : A) (k : string) (m : list (string * A)) : A :=
  match lookup k m with Some v => v | None => d end.

(** [m[k] = v]. *)
Fixpoint insert {A : Type} (k : string) (v : A) (m : list (string * A))
  : list (string * A) :=
  match m with
  | [] => [(k, v)]
  | (k', v') :: m' =>
      if String.eqb k k' then (k, v) :: m' else (k', v') :: insert k v m'
  end.

Definition keys {A : Type} (m : list (string * A)) : list string := map fst m.

(** [slices.Contains]. *)
Definition Contains (s : list string) (v : string) : bool :=
  existsb (String.eqb v) s.

(** ** Kubernetes data *)

Definition Labels := list (string * string).
Definition Time := nat.

(** [metav1.APIResource] (the fields the scan reads). *)
Record APIResource := mkAPIResource {
  Name : string;
  Namespaced : bool;
  Verbs : list string
}.

(** [metav1.APIResourceList]. *)
Record APIResourceList := mkAPIResourceList {
  GroupVersion : string;
  APIResources : list APIResource
}.

(** [schema.GroupVersion] and [schema.GroupVersionResource]. *)
Record SchemaGroupVersion := mkSchemaGroupVersion {
  Group : string;
  Version : string
}.

Record GroupVersionResource := mkGVR {
  gvr_Group : string;
  gvr_Version : string;
  gvr_Resource : string
}.

Definition WithResource (gv : SchemaGroupVersion) (resource : string)
  : GroupVersionResource :=
  mkGVR (Group gv) (Version gv) resource.

(** [unstructured.Unstructured] seen through its getters. *)
Record Unstructured := mkUnstructured {
  GetName : string;
  GetNamespace : string;
  GetLabels : Labels;
  GetCreationTimestamp : Time;
  GetFinalizers : list string;
  GetDeletionTimestamp : option Time
}.

(** [metav1.NamespaceAll]. *)
Definition NamespaceAll : string := "".

Fixpoint count_slash (s : string) : nat :=
  match s with
  | EmptyString => 0
  | String ch s' => (if Ascii.eqb ch "/"%char then 1 else 0) + count_slash s'
  end.

(** [gv[:i], gv[i+1:]] for the first ['/'] at [i]. *)
Fixpoint split_slash (s : string) : string * string :=
  match s with
  | EmptyString => (EmptyString, EmptyString)
  | String ch s' =>
      if Ascii.eqb ch "/"%char then (EmptyString, s')
      else let '(g, v) := split_slash s' in (String ch g, v)
  end.

(** [schema.ParseGroupVersion]; [None] is the returned error. *)
Definition ParseGroupVersion (gv : string) : option SchemaGroupVersion :=
  if String.eqb gv "" || String.eqb gv "/" then Some (mkSchemaGroupVersion "" "")
  else match count_slash gv with
       | 0 => Some (mkSchemaGroupVersion "" gv)
       | 1 => let '(g, v) := split_slash gv in Some (mkSchemaGroupVersion g v)
       | _ => None
       end.

(** ** The package's option records *)

Record FilterOptions := mkFilterOptions {
  ExcludeLabels : list string;
  OlderThan : string;
  NewerThan : string
}.

Record IncludeExcludeLists := mkIncludeExcludeLists {
  IncludeListStr : list string;
  ExcludeListStr : list string
}.

Record Opts := mkOpts {
  DeleteFlag : bool;
  NoInteractive : bool;
  Verbose : bool
}.

(** [map[string][]string]: resource type -> object names. *)
Definition TypeIndex := list (string * list string).
(** [map[string]map[string][]string]: namespace -> resource type -> names. *)
Definition NsIndex := list (string * TypeIndex).

(** ** Effects *)

Inductive Diag :=
| DFetchServerResources                       (* "Error fetching server resources" *)
| DListResources (gv : string)                (* "Error listing resources for GVR %s" *)
| DProcessResources                           (* "Failed to process resources waiting for finalizers" *)
| DProcessNamespace (namespace : string)      (* "Failed to process namespace %s" *)
| DDeleteObjects (names : list string) (namespace : string)
                                              (* "Failed to delete objects waiting for Finalizers" *)
| DFormatter.                                 (* "err: %v" *)

Inductive Event :=
| EDiscovery                                  (* ServerPreferredResources() *)
| EList (gvr : GroupVersionResource) (namespace : string)
| EStdout (d : Diag)
| EStderr (d : Diag)
| EDeleteWithFinalizer (namespace resourceType : string) (names : list string) (noInteractive : bool)
| EDelete (namespace resourceType : string) (names : list string) (noInteractive : bool)
| EExit (code : nat).

(** A call either terminates the process ([os.Exit]) or returns a value and
    a Go error ([None] is [nil]). *)
Inductive Outcome (A : Type) :=
| Exit (code : nat)
| Return (v : A) (err : option string).
Arguments Exit {A} code.
Arguments Return {A} v err.

(** The API server as seen through the discovery and dynamic clients:
    [ServerPreferredResources] is [None] when the fetch fails, and
    [DynamicList gvr ns] is [None] when the list call fails. *)
Record Cluster := mkCluster {
  ServerPreferredResources : option (list APIResourceList);
  DynamicList : GroupVersionResource -> string -> option (list Unstructured)
}.

(** Package helpers defined outside [finalizers.go]; Go errors are
    [option string]. *)
Record Helpers := mkHelpers {
  SetNamespaceList : IncludeExcludeLists -> list string;
  HasExcludedLabel : Labels -> list string -> bool * option string;
  HasIncludedAge : Time -> FilterOptions -> bool * option string;
  DeleteResource : list string -> string -> string -> bool -> list string * option string;
  DeleteResourceWithFinalizer : list string -> string -> string -> bool -> list string * option string;
  FormatOutputFromMap : string -> TypeIndex -> Opts -> string;
  MarshalIndent : NsIndex -> string * option string;
  unusedResourceFormatter : string -> string -> Opts -> string -> string * option string
}.

(** ** finalizers.go *)

Definition CheckFinalizers (finalizers : list string) (deletionTimestamp : option Time) : bool :=
  if (0 <? length finalizers) && (match deletionTimestamp with Some _ => true | None => false end)
  then true
  else false.

Section Finalizers.

Variable c : Cluster.
Variable h : Helpers.
Variable filterOpts : FilterOptions.

(** *** getResourcesWithFinalizersPendingDeletion (lines 129-181) *)

(** Body of [for _, item := range resourceList.Items] (lines 152-175). *)
Definition global_item (resourceType : APIResource) (pendingDeletionResources : NsIndex)
    (item : Unstructured) : NsIndex :=
  let labels := GetLabels item in
  if String.eqb (index ""%string "kor/used" labels) "true" then pendingDeletionResources else
  if fst (HasExcludedLabel h labels (ExcludeLabels filterOpts)) then pendingDeletionResources else
  if negb (fst (HasIncludedAge h (GetCreationTimestamp item) filterOpts)) then pendingDeletionResources else
  if CheckFinalizers (GetFinalizers item) (GetDeletionTimestamp item) then
    let ns := GetNamespace item in
    let pendingDeletionResources :=
      match lookup ns pendingDeletionResources with
      | None => insert ns [] pendingDeletionResources
      | Some _ => pendingDeletionResources
      end in
    let inner := index [] ns pendingDeletionResources in
    insert ns (insert (Name resourceType) (index [] (Name resourceType) inner ++ [GetName item]) inner)
      pendingDeletionResources
  else pendingDeletionResources.

(** [for _, resourceType := range apiResourceList.APIResources] (lines 145-177). *)
Fixpoint global_resources (groupVersion : string) (gv : SchemaGroupVersion)
    (resourceTypes : list APIResource) (st : list Event * NsIndex) : list Event * NsIndex :=
  match resourceTypes with
  | [] => st
  | resourceType :: rest =>
      let '(log, acc) := st in
      if Namespaced resourceType && Contains (Verbs resourceType) "list" then
        let gvr := WithResource gv (Name resourceType) in
        match DynamicList c gvr NamespaceAll with
        | None =>
            global_resources groupVersion gv rest
              (log ++ [EList gvr NamespaceAll; EStdout (DListResources groupVersion)], acc)
        | Some items =>
            global_resources groupVersion gv rest
              (log ++ [EList gvr NamespaceAll], fold_left (global_item resourceType) items acc)
        end
      else global_resources groupVersion gv rest st
  end.

(** [for _, apiResourceList := range resourceTypes] (lines 139-178). *)
Fixpoint global_groups (resourceTypes : list APIResourceList) (st : list Event * NsIndex)
  : list Event * Outcome NsIndex :=
  match resourceTypes with
  | [] => (fst st, Return (snd st) None)
  | apiResourceList :: rest =>
      match ParseGroupVersion (GroupVersion apiResourceList) with
      | None => (fst st, Return (snd st) (Some ("unexpected GroupVersion string: " ++ GroupVersion apiResourceList)%string))
      | Some gv =>
          global_groups rest
            (global_resources (GroupVersion apiResourceList) gv (APIResources apiResourceList) st)
      end
  end.

(** The [namespaces] argument is not read by the Go function either. *)
Definition getResourcesWithFinalizersPendingDeletion (namespaces : list string)
  : list Event * Outcome NsIndex :=
  match ServerPreferredResources c with
  | None => ([EDiscovery; EStdout DFetchServerResources; EExit 1], Exit 1)
  | Some resourceTypes => global_groups resourceTypes ([EDiscovery], [])
  end.

(** *** getNamespacedResourcesWithFinalizersPendingDeletion (lines 183-230) *)

(** Body of [for _, item := range resourceList.Items] (lines 205-224). *)
Definition scoped_item (resourceType : APIResource) (pendingDeletionResources : TypeIndex)
    (item : Unstructured) : TypeIndex :=
  let labels := GetLabels item in
  if String.eqb (index ""%string "kor/used" labels) "true" then pendingDeletionResources else
  if fst (HasExcludedLabel h labels (ExcludeLabels filterOpts)) then pendingDeletionResources else
  if negb (fst (HasIncludedAge h (GetCreationTimestamp item) filterOpts)) then pendingDeletionResources else
  if CheckFinalizers (GetFinalizers item) (GetDeletionTimestamp item) then
    insert (Name resourceType)
      (index [] (Name resourceType) pendingDeletionResources ++ [GetName item])
      pendingDeletionResources
  else pendingDeletionResources.

Fixpoint scoped_resources (namespace groupVersion : string) (gv : SchemaGroupVersion)
    (resourceTypes : list APIResource) (st : list Event * TypeIndex) : list Event * TypeIndex :=
  match resourceTypes with
  | [] => st
  | resourceType :: rest =>
      let '(log, acc) := st in
      if Namespaced resourceType && Contains (Verbs resourceType) "list" then
        let gvr := WithResource gv (Name resourceType) in
        match DynamicList c gvr namespace with
        | None =>
            scoped_resources namespace groupVersion gv rest
              (log ++ [EList gvr namespace; EStdout (DListResources groupVersion)], acc)
        | Some items =>
            scoped_resources namespace groupVersion gv rest
              (log ++ [EList gvr namespace], fold_left (scoped_item resourceType) items acc)
        end
      else scoped_resources namespace groupVersion gv rest st
  end.

Fixpoint scoped_groups (namespace : string) (resourceTypes : list APIResourceList)
    (st : list Event * TypeIndex) : list Event * Outcome TypeIndex :=
  match resourceTypes with
  | [] => (fst st, Return (snd st) None)
  | apiResourceList :: rest =>
      match ParseGroupVersion (GroupVersion apiResourceList) with
      | None => (fst st, Return (snd st) (Some ("unexpected GroupVersion string: " ++ GroupVersion apiResourceList)%string))
      | Some gv =>
          scoped_groups namespace rest
            (scoped_resources namespace (GroupVersion apiResourceList) gv (APIResources apiResourceList) st)
      end
  end.

Definition getNamespacedResourcesWithFinalizersPendingDeletion (namespace : string)
  : list Event * Outcome TypeIndex :=
  match ServerPreferredResources c with
  | None => ([EDiscovery; EStdout DFetchServerResources; EExit 1], Exit 1)
  | Some resourceTypes => scoped_groups namespace resourceTypes ([EDiscovery], [])
  end.

(** *** GetUnusedfinalizers (lines 232-290) *)

(** [for resourceType, resourceDiff := range data] of the global branch
    (lines 243-249).  The result of the delete call is assigned to the loop
    variable [resourceDiff]; only the diagnostic reads it. *)
Fixpoint delete_with_finalizer_loop (opts : Opts) (namespace : string) (data : TypeIndex)
    (log : list Event) : list Event :=
  match data with
  | [] => log
  | (resourceType, resourceDiff) :: rest =>
      let log :=
        if DeleteFlag opts then
          let '(resourceDiff', err) :=
            DeleteResourceWithFinalizer h resourceDiff namespace resourceType (NoInteractive opts) in
          log ++ [EDeleteWithFinalizer namespace resourceType resourceDiff (NoInteractive opts)]
              ++ match err with
                 | Some _ => [EStderr (DDeleteObjects resourceDiff' namespace)]
                 | None => []
                 end
        else log in
      delete_with_finalizer_loop opts namespace rest log
  end.

(** The same loop of the scoped branch (lines 264-270). *)
Fixpoint delete_loop (opts : Opts) (namespace : string) (resourceDiffs : TypeIndex)
    (log : list Event) : list Event :=
  match resourceDiffs with
  | [] => log
  | (resourceType, resourceDiff) :: rest =>
      let log :=
        if DeleteFlag opts then
          let '(resourceDiff', err) :=
            DeleteResource h resourceDiff namespace resourceType (NoInteractive opts) in
          log ++ [EDelete namespace resourceType resourceDiff (NoInteractive opts)]
              ++ match err with
                 | Some _ => [EStderr (DDeleteObjects resourceDiff' namespace)]
                 | None => []
                 end
        else log in
      delete_loop opts namespace rest log
  end.

(** [for namespace, data := range resourceDiffs] (lines 241-256); the state
    is the log, [outputBuffer] and [response].  Go does not fix the
    iteration order of a map; the loop here takes the entries in list
    order, so the statements about it are made up to that order (key
    sets, membership, map contents, or a permutation of the blocks). *)
Fixpoint global_report (opts : Opts) (namespaces : list string) (resourceDiffs : NsIndex)
    (st : list Event * string * NsIndex) : list Event * string * NsIndex :=
  match resourceDiffs with
  | [] => st
  | (namespace, data) :: rest =>
      let '(log, outputBuffer, response) := st in
      if Contains namespaces namespace then
        let log := delete_with_finalizer_loop opts namespace data log in
        let output := FormatOutputFromMap h namespace data opts in
        global_report opts namespaces rest
          (log, (outputBuffer ++ output ++ String "010"%char "")%string,
           insert namespace data response)
      else global_report opts namespaces rest st
  end.

(** [for _, namespace := range namespaces] (lines 258-276). *)
Fixpoint scoped_report (opts : Opts) (namespaces : list string)
    (st : list Event * string * NsIndex) : list Event * Outcome (string * NsIndex) :=
  match namespaces with
  | [] => let '(log, outputBuffer, response) := st in
          (log, Return (outputBuffer, response) None)
  | namespace :: rest =>
      let '(log, outputBuffer, response) := st in
      let '(ev, r) := getNamespacedResourcesWithFinalizersPendingDeletion namespace in
      match r with
      | Exit code => (log ++ ev, Exit code)
      | Return _ (Some _) =>
          scoped_report opts rest
            (log ++ ev ++ [EStderr (DProcessNamespace namespace)], outputBuffer, response)
      | Return resourceDiffs None =>
          let log := delete_loop opts namespace resourceDiffs (log ++ ev) in
          let output := FormatOutputFromMap h namespace resourceDiffs opts in
          scoped_report opts rest
            (log, (outputBuffer ++ output ++ String "010"%char "")%string,
             insert namespace resourceDiffs response)
      end
  end.

(** Lines 233-277: the rendered buffer and the [response] map, or the
    process exit of a scan. *)
Definition collect (includeExcludeLists : IncludeExcludeLists) (opts : Opts)
  : list Event * Outcome (string * NsIndex) :=
  let namespaces := SetNamespaceList h includeExcludeLists in
  if (length (ExcludeListStr includeExcludeLists) =? 0)
     && (length (IncludeListStr includeExcludeLists) =? 0) then
    let '(ev, r) := getResourcesWithFinalizersPendingDeletion namespaces in
    match r with
    | Exit code => (ev, Exit code)
    | Return resourceDiffs err =>
        let log := match err with
                   | Some _ => ev ++ [EStderr DProcessResources]
                   | None => ev
                   end in
        let '(log, outputBuffer, response) := global_report opts namespaces resourceDiffs (log, ""%string, []) in
        (log, Return (outputBuffer, response) None)
    end
  else scoped_report opts namespaces ([], ""%string, []).

Definition GetUnusedfinalizers (includeExcludeLists : IncludeExcludeLists)
    (outputFormat : string) (opts : Opts) : list Event * Outcome string :=
  let '(log, r) := collect includeExcludeLists opts in
  match r with
  | Exit code => (log, Exit code)
  | Return (outputBuffer, response) _ =>
      let '(jsonResponse, err) := MarshalIndent h response in
      match err with
      | Some e => (log, Return ""%string (Some e))
      | None =>
          let '(unusedFinalizers, err) :=
            unusedResourceFormatter h outputFormat outputBuffer opts jsonResponse in
          let log := match err with Some _ => log ++ [EStdout DFormatter] | None => log end in
          (log, Return unusedFinalizers None)
      end
  end.

End Finalizers.

(** ** The first version in finalizers.go (lines 18-103)

    The file also holds an older copy of the package's code: a scan of one
    namespace and a [GetUnusedfinalizers] that always loops over the
    resolved namespaces. *)

Module Legacy.

Section Legacy.

Variable c : Cluster.
Variable h : Helpers.
Variable filterOpts : FilterOptions.

(** Body of [for _, item := range resourceList.Items] (lines 40-59); the
    finalizer test is written inline. *)
Definition item_step (resource : APIResource) (pendingDeletionResources : TypeIndex)
    (item : Unstructured) : TypeIndex :=
  let labels := GetLabels item in
  if String.eqb (index ""%string "kor/used" labels) "true" then pendingDeletionResources else
  if fst (HasExcludedLabel h labels (ExcludeLabels filterOpts)) then pendingDeletionResources else
  if negb (fst (HasIncludedAge h (GetCreationTimestamp item) filterOpts)) then pendingDeletionResources else
  if (0 <? length (GetFinalizers item))
     && (match GetDeletionTimestamp item with Some _ => true | None => false end) then
    insert (Name resource) (index [] (Name resource) pendingDeletionResources ++ [GetName item])
      pendingDeletionResources
  else pendingDeletionResources.

(** [for _, resource := range apiResourceList.APIResources] (lines 33-61). *)
Fixpoint resources (namespace groupVersion : string) (gv : SchemaGroupVersion)
    (rs : list APIResource) (st : list Event * TypeIndex) : list Event * TypeIndex :=
  match rs with
  | [] => st
  | resource :: rest =>
      let '(log, acc) := st in
      if Namespaced resource && Contains (Verbs resource) "list" then
        let gvr := WithResource gv (Name resource) in
        match DynamicList c gvr namespace with
        | None =>
            resources namespace groupVersion gv rest
              (log ++ [EList gvr namespace; EStdout (DListResources groupVersion)], acc)
        | Some items =>
            resources namespace groupVersion gv rest
              (log ++ [EList gvr namespace], fold_left (item_step resource) items acc)
        end
      else resources namespace groupVersion gv rest st
  end.

(** [for _, apiResourceList := range resourceTypes] (lines 27-62). *)
Fixpoint groups (namespace : string) (resourceTypes : list APIResourceList)
    (st : list Event * TypeIndex) : list Event * Outcome TypeIndex :=
  match resourceTypes with
  | [] => (fst st, Return (snd st) None)
  | apiResourceList :: rest =>
      match ParseGroupVersion (GroupVersion apiResourceList) with
      | None => (fst st, Return (snd st) (Some ("unexpected GroupVersion string: " ++ GroupVersion apiResourceList)%string))
      | Some gv =>
          groups namespace rest
            (resources namespace (GroupVersion apiResourceList) gv (APIResources apiResourceList) st)
      end
  end.

(** Lines 18-65. *)
Definition getResourcesWithFinalizersPendingDeletion (namespace : string)
  : list Event * Outcome TypeIndex :=
  match ServerPreferredResources c with
  | None => ([EDiscovery; EStdout DFetchServerResources; EExit 1], Exit 1)
  | Some resourceTypes => groups namespace resourceTypes ([EDiscovery], [])
  end.

(** [for _, namespace := range namespaces] (lines 72-90); the delete loop
    of lines 78-84 is the one of the scoped branch, [delete_loop]. *)
Fixpoint namespace_loop (opts : Opts) (namespaces : list string)
    (st : list Event * string * NsIndex) : list Event * Outcome (string * NsIndex) :=
  match namespaces with
  | [] => let '(log, outputBuffer, response) := st in
          (log, Return (outputBuffer, response) None)
  | namespace :: rest =>
      let '(log, outputBuffer, response) := st in
      let '(ev, r) := getResourcesWithFinalizersPendingDeletion namespace in
      match r with
      | Exit code => (log ++ ev, Exit code)
      | Return _ (Some _) =>
          namespace_loop opts rest
            (log ++ ev ++ [EStderr (DProcessNamespace namespace)], outputBuffer, response)
      | Return resourceDiffs None =>
          let log := delete_loop h opts namespace resourceDiffs (log ++ ev) in
          let output := FormatOutputFromMap h namespace resourceDiffs opts in
          namespace_loop opts rest
            (log, (outputBuffer ++ output ++ String "010"%char "")%string,
             insert namespace resourceDiffs response)
      end
  end.

(** Lines 67-103. *)
Definition GetUnusedfinalizers (includeExcludeLists : IncludeExcludeLists)
    (outputFormat : string) (opts : Opts) : list Event * Outcome string :=
  let namespaces := SetNamespaceList h includeExcludeLists in
  let '(log, r) := namespace_loop opts namespaces ([], ""%string, []) in
  match r with
  | Exit code => (log, Exit code)
  | Return (outputBuffer, response) _ =>
      let '(jsonResponse, err) := MarshalIndent h response in
      match err with
      | Some e => (log, Return ""%string (Some e))
      | None =>
          let '(unusedFinalizers, err) :=
            unusedResourceFormatter h outputFormat outputBuffer opts jsonResponse in
          let log := match err with Some _ => log ++ [EStdout DFormatter] | None => log end in
          (log, Return unusedFinalizers None)
      end
  end.

End Legacy.

End Legacy.

(** ** A small cluster used to exercise the embedding *)

Open Scope string_scope.
Open Scope list_scope.

(** The API server answers a list call in namespace [ns] with the objects
    of that namespace, and a call with [NamespaceAll] with every object. *)
Definition list_from_store (store : GroupVersionResource -> option (list Unstructured))
    (gvr : GroupVersionResource) (namespace : string) : option (list Unstructured) :=
  if String.eqb namespace NamespaceAll then store gvr
  else option_map (filter (fun item => String.eqb (GetNamespace item) namespace)) (store gvr).

Definition configmaps : APIResource := mkAPIResource "configmaps" true ["get"; "list"; "delete"].

Definition core_v1 : APIResourceList := mkAPIResourceList "v1" [configmaps].

Definition cm_a : Unstructured :=
  mkUnstructured "cm-a" "default" [] 0 ["fin.example/x"] (Some 5).

Definition demo_store (items : list Unstructured) (gvr : GroupVersionResource)
  : option (list Unstructured) :=
  if String.eqb (gvr_Resource gvr) "configmaps" then Some items else Some [].

Definition demo_cluster (items : list Unstructured) : Cluster :=
  mkCluster (Some [core_v1]) (list_from_store (demo_store items)).

(** A delete driver under which every delete call succeeds, as in the
    scenario of the spec: the residual name list it returns is empty. *)
Definition delete_all (diff : list string) (namespace resourceType : string) (noInteractive : bool)
  : list string * option string :=
  ([], None).

Definition demo_helpers (namespaces : list string) : Helpers :=
  mkHelpers
    (fun _ => namespaces)
    (fun _ _ => (false, None))
    (fun _ _ => (true, None))
    delete_all
    delete_all
    (fun namespace _ _ => namespace)
    (fun _ => ("{}"%string, None))
    (fun _ outputBuffer _ _ => (outputBuffer, None)).

(** A pending config map in a namespace outside the resolved list. *)
Definition cm_b : Unstructured :=
  mkUnstructured "cm-b" "other" [] 0 ["fin.example/x"] (Some 5).

(** A pending config map labelled [kor/used=true]. *)
Definition cm_used : Unstructured :=
  mkUnstructured "cm-used" "default" [("kor/used", "true")] 0 ["fin.example/x"] (Some 5).

Definition secrets : APIResource := mkAPIResource "secrets" true ["list"].

Definition sec_a : Unstructured :=
  mkUnstructured "sec-a" "default" [] 0 ["fin.example/y"] (Some 7).

(** A server whose list calls for [configmaps] fail in every namespace. *)
Definition broken_configmaps_cluster (items : list Unstructured) : Cluster :=
  mkCluster (Some [mkAPIResourceList "v1" [configmaps; secrets]])
    (fun gvr namespace =>
       if String.eqb (gvr_Resource gvr) "configmaps" then None
       else list_from_store (fun _ => Some items) gvr namespace).

(** A server whose list calls for [configmaps] fail in every named
    namespace but succeed across all namespaces. *)
Definition namespace_broken_cluster (items : list Unstructured) : Cluster :=
  mkCluster (Some [mkAPIResourceList "v1" [configmaps; secrets]])
    (fun gvr namespace =>
       if String.eqb (gvr_Resource gvr) "configmaps" && negb (String.eqb namespace NamespaceAll)
       then None
       else list_from_store (fun _ => Some items) gvr namespace).

(** A catalog whose second group/version string does not parse. *)
Definition bad_group_cluster (items : list Unstructured) : Cluster :=
  mkCluster (Some [core_v1; mkAPIResourceList "apps/v1/x" [configmaps]])
    (list_from_store (demo_store items)).

Definition demo_filter : FilterOptions := mkFilterOptions [] "" "".

Definition all_namespaces : IncludeExcludeLists := mkIncludeExcludeLists [] [].

(** ** Views of the results used by the statements *)

(** [(ns, ty, n)] is an entry of a namespace -> type -> names map. *)
Definition has_entry (m : NsIndex) (ns ty n : string) : Prop :=
  In n (index [] ty (index [] ns m)).

(** [(ty, n)] is an entry of a type -> names map. *)
Definition has_tentry (m : TypeIndex) (ty n : string) : Prop :=
  In n (index [] ty m).

(** An item that passes the three filters and is classified pending. *)
Definition selected (h : Helpers) (fo : FilterOptions) (item : Unstructured) : bool :=
  negb (String.eqb (index "" "kor/used" (GetLabels item)) "true")
  && negb (fst (HasExcludedLabel h (GetLabels item) (ExcludeLabels fo)))
  && fst (HasIncludedAge h (GetCreationTimestamp item) fo)
  && CheckFinalizers (GetFinalizers item) (GetDeletionTimestamp item).

Definition listable (r : APIResource) : bool :=
  Namespaced r && Contains (Verbs r) "list".

(** The groups of the catalog reached by a scan: those before the first
    group/version string that does not parse. *)
Fixpoint parsed_prefix (resourceTypes : list APIResourceList)
  : list (SchemaGroupVersion * APIResourceList) :=
  match resourceTypes with
  | [] => []
  | apiResourceList :: rest =>
      match ParseGroupVersion (GroupVersion apiResourceList) with
      | None => []
      | Some gv => (gv, apiResourceList) :: parsed_prefix rest
      end
  end.

(** The entries found by the global scan. *)
Definition global_pending (c : Cluster) (h : Helpers) (fo : FilterOptions)
    (namespaces : list string) (ns ty n : string) : Prop :=
  match snd (getResourcesWithFinalizersPendingDeletion c h fo namespaces) with
  | Exit _ => False
  | Return m _ => has_entry m ns ty n
  end.

(** The entries found by running the scoped scan once per namespace. *)
Definition scoped_pending (c : Cluster) (h : Helpers) (fo : FilterOptions)
    (namespaces : list string) (ns ty n : string) : Prop :=
  In ns namespaces /\
  match snd (getNamespacedResourcesWithFinalizersPendingDeletion c h fo ns) with
  | Exit _ => False
  | Return m _ => has_tentry m ty n
  end.

Definition is_global_mode (l : IncludeExcludeLists) : bool :=
  Nat.eqb (length (ExcludeListStr l)) 0 && Nat.eqb (length (IncludeListStr l)) 0.

(** [labels["kor/used"] != "true"]. *)
Definition not_kor_used (item : Unstructured) : bool :=
  negb (String.eqb (index "" "kor/used" (GetLabels item)) "true").

(** The same cluster with every object labelled [kor/used=true] removed
    from every list answer. *)
Definition without_kor_used (c : Cluster) : Cluster :=
  mkCluster (ServerPreferredResources c)
    (fun gvr namespace => option_map (filter not_kor_used) (DynamicList c gvr namespace)).

(** The [response] map marshaled at line 279, when no scan exited. *)
Definition final_response (c : Cluster) (h : Helpers) (fo : FilterOptions)
    (l : IncludeExcludeLists) (opts : Opts) : option NsIndex :=
  match snd (collect c h fo l opts) with
  | Return (_, response) _ => Some response
  | Exit _ => None
  end.

(** Events a scan emits after its discovery call, when it lists in
    [namespace]. *)
Definition scan_event (namespace : string) (e : Event) : Prop :=
  match e with
  | EList _ ns => ns = namespace
  | EStdout _ | EExit _ => True
  | _ => False
  end.

(** Events of a delete loop in [namespace]: [fin] is the finalizer-aware
    path. *)
Definition delete_event (fin : bool) (namespace : string) (e : Event) : Prop :=
  match e with
  | EDeleteWithFinalizer ns _ _ _ => fin = true /\ ns = namespace
  | EDelete ns _ _ _ => fin = false /\ ns = namespace
  | EStderr _ => True
  | _ => False
  end.

(** Events of a global-mode run: every list call is all-namespaces, every
    delete goes through the finalizer-aware path in a resolved namespace. *)
Definition global_event (namespaces : list string) (e : Event) : Prop :=
  match e with
  | EList _ ns => ns = NamespaceAll
  | EDeleteWithFinalizer ns _ _ _ => In ns namespaces
  | EDelete _ _ _ _ => False
  | _ => True
  end.

(** Events of a scoped-mode run: every list call and every (plain) delete
    is in a resolved namespace. *)
Definition scoped_event (namespaces : list string) (e : Event) : Prop :=
  match e with
  | EList _ ns => In ns namespaces
  | EDelete ns _ _ _ => In ns namespaces
  | EDeleteWithFinalizer _ _ _ _ => False
  | _ => True
  end.

(** Number of discovery calls, i.e. of scans started. *)
Definition discoveries (log : list Event) : nat :=
  length (filter (fun e => match e with EDiscovery => true | _ => false end) log).

(** No list call at all. *)
Definition no_list_call (log : list Event) : Prop :=
  forall gvr namespace, ~ In (EList gvr namespace) log.

(** A scoped scan of [namespace] that returned without error. *)
Definition scan_ok (c : Cluster) (h : Helpers) (fo : FilterOptions) (namespace : string) : Prop :=
  exists m, snd (getNamespacedResourcesWithFinalizersPendingDeletion c h fo namespace) = Return m None.

(** Every namespace key of the global accumulator carries an entry. *)
Definition keys_have_entries (m : NsIndex) : Prop :=
  forall k, In k (keys m) <-> exists ty n, has_entry m k ty n.

(** No resource type is mapped to an empty name list. *)
Definition nonempty_types (t : TypeIndex) : Prop :=
  forall ty names, In (ty, names) t -> names <> [].

Definition nonempty_namespaces (m : NsIndex) : Prop :=
  forall ns t, In (ns, t) m -> nonempty_types t.

(** The names the scoped scan collects for type [ty] from one resource
    type [r] of group/version [gv], in list order. *)
Definition scoped_type_names (c : Cluster) (h : Helpers) (fo : FilterOptions)
    (namespace : string) (gv : SchemaGroupVersion) (ty : string) (r : APIResource)
  : list string :=
  if listable r && String.eqb (Name r) ty then
    match DynamicList c (WithResource gv (Name r)) namespace with
    | Some items => map GetName (filter (selected h fo) items)
    | None => []
    end
  else [].

(** The same for the global scan and the bucket of namespace [ns]. *)
Definition global_type_names (c : Cluster) (h : Helpers) (fo : FilterOptions)
    (gv : SchemaGroupVersion) (ns ty : string) (r : APIResource) : list string :=
  if listable r && String.eqb (Name r) ty then
    match DynamicList c (WithResource gv (Name r)) NamespaceAll with
    | Some items =>
        map GetName (filter (fun item => selected h fo item && String.eqb (GetNamespace item) ns) items)
    | None => []
    end
  else [].

(** The name list of type [ty] expected from the scoped scan of
    [namespace]: every group reached, every resource type in order. *)
Definition scoped_names (c : Cluster) (h : Helpers) (fo : FilterOptions)
    (namespace : string) (resourceTypes : list APIResourceList) (ty : string) : list string :=
  flat_map (fun p => flat_map (scoped_type_names c h fo namespace (fst p) ty) (APIResources (snd p)))
    (parsed_prefix resourceTypes).

Definition global_names (c : Cluster) (h : Helpers) (fo : FilterOptions)
    (resourceTypes : list APIResourceList) (ns ty : string) : list string :=
  flat_map (fun p => flat_map (global_type_names c h fo (fst p) ns ty) (APIResources (snd p)))
    (parsed_prefix resourceTypes).

(** A delete call of either path. *)
Definition is_delete (e : Event) : bool :=
  match e with
  | EDelete _ _ _ _ | EDeleteWithFinalizer _ _ _ _ => true
  | _ => false
  end.

(** The rendered blocks of a report, written one after another. *)
Definition render_blocks (blocks : list string) : string :=
  fold_right String.append ""%string blocks.

(** The block the scoped branch writes for [namespace]: the rendered map
    and a newline, or nothing when the scan failed. *)
Definition scoped_block (c : Cluster) (h : Helpers) (fo : FilterOptions) (opts : Opts)
    (namespace : string) : string :=
  match snd (getNamespacedResourcesWithFinalizersPendingDeletion c h fo namespace) with
  | Return m None => (FormatOutputFromMap h namespace m opts ++ String "010"%char "")%string
  | _ => ""%string
  end.

(** The block the global branch writes for a [(namespace, data)] entry of
    the scan's map. *)
Definition global_block (h : Helpers) (opts : Opts) (entry : string * TypeIndex) : string :=
  (FormatOutputFromMap h (fst entry) (snd entry) opts ++ String "010"%char "")%string.

(** The response carried by the outcome of the scoped branch. *)
Definition outcome_response (r : Outcome (string * NsIndex)) : option NsIndex :=
  match r with
  | Return (_, response) _ => Some response
  | Exit _ => None
  end.

(** * Properties *)

(** ** Go maps *)

Lemma lookup_insert_eq {A} (k : string) (v : A) m : lookup k (insert k v m) = Some v.
Proof.
  induction m as [|[k' v'] m IH]; simpl.
  - now rewrite String.eqb_refl.
  - destruct (String.eqb_spec k k'); simpl.
    + now rewrite String.eqb_refl.
    + apply String.eqb_neq in n. now rewrite n.
Qed.

Lemma lookup_insert_neq {A} (k k' : string) (v : A) m :
  k' <> k -> lookup k' (insert k v m) = lookup k' m.
Proof.
  intros Hne. apply String.eqb_neq in Hne.
  induction m as [|[k0 v0] m IH]; simpl.
  - now rewrite Hne.
  - destruct (String.eqb_spec k k0) as [->|]; simpl.
    + now rewrite Hne.
    + destruct (String.eqb k' k0); auto.
Qed.

Lemma index_insert {A} (d : A) k k' v m :
  index d k' (insert k v m) = if String.eqb k' k then v else index d k' m.
Proof.
  unfold index. destruct (String.eqb_spec k' k) as [->|Hne].
  - now rewrite lookup_insert_eq.
  - now rewrite lookup_insert_neq.
Qed.

Lemma in_keys_lookup {A} k (m : list (string * A)) :
  In k (keys m) <-> lookup k m <> None.
Proof.
  induction m as [|[k' v'] m IH]; simpl.
  - tauto.
  - destruct (String.eqb_spec k k') as [->|Hne].
    + split; [discriminate | auto].
    + rewrite <- IH. split; [intros [->|H]; [congruence|auto] | auto].
Qed.

Lemma in_keys_insert {A} k k' (v : A) m :
  In k' (keys (insert k v m)) <-> k' = k \/ In k' (keys m).
Proof.
  rewrite !in_keys_lookup. destruct (String.eqb_spec k' k) as [->|Hne].
  - rewrite lookup_insert_eq. split; [auto | discriminate].
  - rewrite lookup_insert_neq by auto. intuition congruence.
Qed.

Lemma Contains_In s v : Contains s v = true <-> In v s.
Proof.
  unfold Contains. rewrite existsb_exists. split.
  - intros [x [Hx Heq]]. apply String.eqb_eq in Heq. now subst.
  - intros H. exists v. now rewrite String.eqb_refl.
Qed.

(** [if pendingDeletionResources[ns] == nil { ... = make(...) }] changes no
    lookup through [index]. *)
Lemma index_make_if_nil (acc : NsIndex) ns x :
  index [] x (match lookup ns acc with
              | None => insert ns [] acc
              | Some _ => acc
              end) = index [] x acc.
Proof.
  destruct (lookup ns acc) eqn:E; auto.
  rewrite index_insert. destruct (String.eqb_spec x ns) as [Hx|]; [subst x|auto].
  unfold index. unfold TypeIndex in E. now rewrite E.
Qed.

Ltac eqb_cases a b :=
  let E := fresh "E" in
  destruct (String.eqb_spec a b) as [E|E]; [subst|].

(** ** The per-item steps *)

Lemma global_item_entry h fo r acc item ns ty n :
  has_entry (global_item h fo r acc item) ns ty n <->
  has_entry acc ns ty n \/
  (selected h fo item = true /\ ns = GetNamespace item /\ ty = Name r /\ n = GetName item).
Proof.
  unfold global_item, selected, has_entry.
  destruct (String.eqb (index "" "kor/used" (GetLabels item)) "true"); simpl;
    [intuition discriminate|].
  destruct (fst (HasExcludedLabel h (GetLabels item) (ExcludeLabels fo))); simpl;
    [intuition discriminate|].
  destruct (fst (HasIncludedAge h (GetCreationTimestamp item) fo)); simpl;
    [|intuition discriminate].
  destruct (CheckFinalizers (GetFinalizers item) (GetDeletionTimestamp item));
    [|intuition discriminate].
  rewrite index_insert. rewrite !index_make_if_nil.
  eqb_cases ns (GetNamespace item).
  - rewrite index_insert. eqb_cases ty (Name r).
    + rewrite in_app_iff. simpl. intuition.
    + intuition congruence.
  - intuition congruence.
Qed.

Lemma scoped_item_entry h fo r acc item ty n :
  has_tentry (scoped_item h fo r acc item) ty n <->
  has_tentry acc ty n \/
  (selected h fo item = true /\ ty = Name r /\ n = GetName item).
Proof.
  unfold scoped_item, selected, has_tentry.
  destruct (String.eqb (index "" "kor/used" (GetLabels item)) "true"); simpl;
    [intuition discriminate|].
  destruct (fst (HasExcludedLabel h (GetLabels item) (ExcludeLabels fo))); simpl;
    [intuition discriminate|].
  destruct (fst (HasIncludedAge h (GetCreationTimestamp item) fo)); simpl;
    [|intuition discriminate].
  destruct (CheckFinalizers (GetFinalizers item) (GetDeletionTimestamp item));
    [|intuition discriminate].
  rewrite index_insert. eqb_cases ty (Name r).
  - rewrite in_app_iff. simpl. intuition.
  - intuition congruence.
Qed.

Lemma global_items_entry h fo r items acc ns ty n :
  has_entry (fold_left (global_item h fo r) items acc) ns ty n <->
  has_entry acc ns ty n \/
  exists item, In item items /\ selected h fo item = true /\
    ns = GetNamespace item /\ ty = Name r /\ n = GetName item.
Proof.
  revert acc. induction items as [|item items IH]; intros acc; simpl.
  - firstorder.
  - rewrite IH, global_item_entry. split.
    + intros [[H|H]|[i Hi]]; [auto|right; exists item; tauto|right; exists i; tauto].
    + intros [H|[i [[<-|Hin] Hi]]]; [auto|left; right; tauto|right; exists i; tauto].
Qed.

Lemma scoped_items_entry h fo r items acc ty n :
  has_tentry (fold_left (scoped_item h fo r) items acc) ty n <->
  has_tentry acc ty n \/
  exists item, In item items /\ selected h fo item = true /\
    ty = Name r /\ n = GetName item.
Proof.
  revert acc. induction items as [|item items IH]; intros acc; simpl.
  - firstorder.
  - rewrite IH, scoped_item_entry. split.
    + intros [[H|H]|[i Hi]]; [auto|right; exists item; tauto|right; exists i; tauto].
    + intros [H|[i [[<-|Hin] Hi]]]; [auto|left; right; tauto|right; exists i; tauto].
Qed.

(** ** The loops over resource types *)

Lemma global_resources_entry c h fo gvs gv rs st ns ty n :
  has_entry (snd (global_resources c h fo gvs gv rs st)) ns ty n <->
  has_entry (snd st) ns ty n \/
  exists r items item, In r rs /\ listable r = true /\
    DynamicList c (WithResource gv (Name r)) NamespaceAll = Some items /\
    In item items /\ selected h fo item = true /\
    ns = GetNamespace item /\ ty = Name r /\ n = GetName item.
Proof.
  revert st. induction rs as [|r rs IH]; intros [log acc]; simpl.
  - split; [auto | intros [H|(r & items & item & [] & _)]; auto].
  - destruct (Namespaced r && Contains (Verbs r) "list") eqn:L.
    + destruct (DynamicList c (WithResource gv (Name r)) NamespaceAll) as [items|] eqn:D;
        rewrite IH; simpl.
      * rewrite global_items_entry. split.
        -- intros [[H|(i & Hi)]|(r' & its & i & Hr & Hi)]; [tauto| |].
           ++ right. exists r, items, i. unfold listable. tauto.
           ++ right. exists r', its, i. tauto.
        -- intros [H|(r' & its & i & [<-|Hr] & Hl & Hd & Hi)]; [tauto| |].
           ++ left. right. exists i. rewrite D in Hd. injection Hd as <-. tauto.
           ++ right. exists r', its, i. tauto.
      * split.
        -- intros [H|(r' & its & i & Hr & Hi)]; [tauto|].
           right. exists r', its, i. tauto.
        -- intros [H|(r' & its & i & [<-|Hr] & Hl & Hd & Hi)]; [tauto| |].
           ++ congruence.
           ++ right. exists r', its, i. tauto.
    + rewrite IH. split.
      * intros [H|(r' & its & i & Hr & Hi)]; [tauto|].
        right. exists r', its, i. tauto.
      * intros [H|(r' & its & i & [<-|Hr] & Hl & Hi)]; [tauto| |].
        -- unfold listable in Hl. congruence.
        -- right. exists r', its, i. tauto.
Qed.

Lemma scoped_resources_entry c h fo namespace gvs gv rs st ty n :
  has_tentry (snd (scoped_resources c h fo namespace gvs gv rs st)) ty n <->
  has_tentry (snd st) ty n \/
  exists r items item, In r rs /\ listable r = true /\
    DynamicList c (WithResource gv (Name r)) namespace = Some items /\
    In item items /\ selected h fo item = true /\
    ty = Name r /\ n = GetName item.
Proof.
  revert st. induction rs as [|r rs IH]; intros [log acc]; simpl.
  - split; [auto | intros [H|(r & items & item & [] & _)]; auto].
  - destruct (Namespaced r && Contains (Verbs r) "list") eqn:L.
    + destruct (DynamicList c (WithResource gv (Name r)) namespace) as [items|] eqn:D;
        rewrite IH; simpl.
      * rewrite scoped_items_entry. split.
        -- intros [[H|(i & Hi)]|(r' & its & i & Hr & Hi)]; [tauto| |].
           ++ right. exists r, items, i. unfold listable. tauto.
           ++ right. exists r', its, i. tauto.
        -- intros [H|(r' & its & i & [<-|Hr] & Hl & Hd & Hi)]; [tauto| |].
           ++ left. right. exists i. rewrite D in Hd. injection Hd as <-. tauto.
           ++ right. exists r', its, i. tauto.
      * split.
        -- intros [H|(r' & its & i & Hr & Hi)]; [tauto|].
           right. exists r', its, i. tauto.
        -- intros [H|(r' & its & i & [<-|Hr] & Hl & Hd & Hi)]; [tauto| |].
           ++ congruence.
           ++ right. exists r', its, i. tauto.
    + rewrite IH. split.
      * intros [H|(r' & its & i & Hr & Hi)]; [tauto|].
        right. exists r', its, i. tauto.
      * intros [H|(r' & its & i & [<-|Hr] & Hl & Hi)]; [tauto| |].
        -- unfold listable in Hl. congruence.
        -- right. exists r', its, i. tauto.
Qed.

(** ** The loops over groups *)

Lemma global_groups_spec c h fo rts st :
  exists log m err, global_groups c h fo rts st = (log, Return m err) /\
  (err = None <-> forall gl, In gl rts -> ParseGroupVersion (GroupVersion gl) <> None) /\
  forall ns ty n, has_entry m ns ty n <->
    has_entry (snd st) ns ty n \/
    exists gv gl r items item, In (gv, gl) (parsed_prefix rts) /\ In r (APIResources gl) /\
      listable r = true /\
      DynamicList c (WithResource gv (Name r)) NamespaceAll = Some items /\
      In item items /\ selected h fo item = true /\
      ns = GetNamespace item /\ ty = Name r /\ n = GetName item.
Proof.
  revert st. induction rts as [|gl rts IH]; intros st; simpl.
  - exists (fst st), (snd st), None. repeat split; try tauto.
    intros [H|(gv & gl & _ & _ & _ & [] & _)]; auto.
  - destruct (ParseGroupVersion (GroupVersion gl)) as [gv|] eqn:P.
    + destruct (IH (global_resources c h fo (GroupVersion gl) gv (APIResources gl) st))
        as (log & m & err & Heq & Herr & Hm).
      exists log, m, err. split; [exact Heq|split].
      * rewrite Herr. split.
        -- intros H g [<-|Hg]; [congruence|auto].
        -- intros H g Hg. auto.
      * intros ns ty n. rewrite Hm, global_resources_entry. split.
        -- intros [[H|(r & its & i & Hr & Hi)]|(gv' & gl' & r & its & i & Hin & Hi)]; [tauto| |].
           ++ right. exists gv, gl, r, its, i. simpl. tauto.
           ++ right. exists gv', gl', r, its, i. simpl. tauto.
        -- intros [H|(gv' & gl' & r & its & i & [Heqg|Hin] & Hi)]; [tauto| |].
           ++ injection Heqg as <- <-. left. right. exists r, its, i. tauto.
           ++ right. exists gv', gl', r, its, i. tauto.
    + eexists _, _, _. split; [reflexivity|split].
      * split; [discriminate|]. intros H. exfalso. apply (H gl); auto.
      * intros ns ty n. simpl. split; [auto|].
        intros [H|(gv & gl' & _ & _ & _ & [] & _)]; auto.
Qed.

Lemma scoped_groups_spec c h fo namespace rts st :
  exists log m err, scoped_groups c h fo namespace rts st = (log, Return m err) /\
  (err = None <-> forall gl, In gl rts -> ParseGroupVersion (GroupVersion gl) <> None) /\
  forall ty n, has_tentry m ty n <->
    has_tentry (snd st) ty n \/
    exists gv gl r items item, In (gv, gl) (parsed_prefix rts) /\ In r (APIResources gl) /\
      listable r = true /\
      DynamicList c (WithResource gv (Name r)) namespace = Some items /\
      In item items /\ selected h fo item = true /\
      ty = Name r /\ n = GetName item.
Proof.
  revert st. induction rts as [|gl rts IH]; intros st; simpl.
  - exists (fst st), (snd st), None. repeat split; try tauto.
    intros [H|(gv & gl & _ & _ & _ & [] & _)]; auto.
  - destruct (ParseGroupVersion (GroupVersion gl)) as [gv|] eqn:P.
    + destruct (IH (scoped_resources c h fo namespace (GroupVersion gl) gv (APIResources gl) st))
        as (log & m & err & Heq & Herr & Hm).
      exists log, m, err. split; [exact Heq|split].
      * rewrite Herr. split.
        -- intros H g [<-|Hg]; [congruence|auto].
        -- intros H g Hg. auto.
      * intros ty n. rewrite Hm, scoped_resources_entry. split.
        -- intros [[H|(r & its & i & Hr & Hi)]|(gv' & gl' & r & its & i & Hin & Hi)]; [tauto| |].
           ++ right. exists gv, gl, r, its, i. simpl. tauto.
           ++ right. exists gv', gl', r, its, i. simpl. tauto.
        -- intros [H|(gv' & gl' & r & its & i & [Heqg|Hin] & Hi)]; [tauto| |].
           ++ injection Heqg as <- <-. left. right. exists r, its, i. tauto.
           ++ right. exists gv', gl', r, its, i. tauto.
    + eexists _, _, _. split; [reflexivity|split].
      * split; [discriminate|]. intros H. exfalso. apply (H gl); auto.
      * intros ty n. simpl. split; [auto|].
        intros [H|(gv & gl' & _ & _ & _ & [] & _)]; auto.
Qed.

(** ** C3: the global and the scoped scans find the same entries *)

(** Claim C3.  For every cluster whose API server answers a namespaced list
    call with the objects of that namespace (and fails for a type exactly
    when the all-namespaces call fails), and for a namespace list that holds
    every namespace of the cluster (all non-empty names), the global scan
    and the scoped scan run once per namespace produce the same set of
    (namespace, resource type, object name) entries. *)
Theorem global_scoped_scans_agree (c : Cluster) (h : Helpers) (fo : FilterOptions)
    (namespaces : list string)
    (Hlist : forall gvr ns, ns <> NamespaceAll ->
       DynamicList c gvr ns =
       option_map (filter (fun item => String.eqb (GetNamespace item) ns))
                  (DynamicList c gvr NamespaceAll))
    (Hcover : forall gvr items item, DynamicList c gvr NamespaceAll = Some items ->
       In item items -> In (GetNamespace item) namespaces)
    (Hnamed : ~ In NamespaceAll namespaces) :
  forall ns ty n,
    global_pending c h fo namespaces ns ty n <-> scoped_pending c h fo namespaces ns ty n.
Proof.
  intros ns ty n. unfold global_pending, scoped_pending,
    getResourcesWithFinalizersPendingDeletion,
    getNamespacedResourcesWithFinalizersPendingDeletion.
  destruct (ServerPreferredResources c) as [rts|]; [|simpl; tauto].
  destruct (global_groups_spec c h fo rts ([EDiscovery], [])) as (lg & mg & eg & Hg & _ & HmG).
  destruct (scoped_groups_spec c h fo ns rts ([EDiscovery], [])) as (ls & ms & es & Hs & _ & HmS).
  rewrite Hg, Hs. simpl. rewrite HmG, HmS.
  unfold has_entry, has_tentry. simpl. split.
  - intros [[]|(gv & gl & r & items & item & Hp & Hr & Hl & Hd & Hi & Hsel & Hns & Hty & Hn)].
    assert (Hin : In ns namespaces) by (subst ns; eapply Hcover; eauto).
    assert (Hne : ns <> NamespaceAll) by (intros ->; auto).
    split; [exact Hin|right].
    exists gv, gl, r, (filter (fun item => String.eqb (GetNamespace item) ns) items), item.
    rewrite Hlist, Hd by exact Hne. simpl.
    rewrite filter_In, Hns, String.eqb_refl. tauto.
  - intros [Hin [[]|(gv & gl & r & items & item & Hp & Hr & Hl & Hd & Hi & Hsel & Hty & Hn)]].
    assert (Hne : ns <> NamespaceAll) by (intros ->; auto).
    rewrite Hlist in Hd by exact Hne.
    destruct (DynamicList c (WithResource gv (Name r)) NamespaceAll) as [items0|] eqn:D;
      [|discriminate].
    simpl in Hd. injection Hd as <-.
    apply filter_In in Hi as [Hi Hns]. apply String.eqb_eq in Hns. symmetry in Hns.
    right. exists gv, gl, r, items0, item. tauto.
Qed.

(** ** C1: the finalizer predicate *)

(** Claim C1.  [CheckFinalizers] holds exactly when the finalizer list is
    non-empty and the deletion timestamp is set; it reads nothing else, so
    an object with no finalizer or no deletion timestamp is not pending. *)
Theorem CheckFinalizers_iff (finalizers : list string) (deletionTimestamp : option Time) :
  CheckFinalizers finalizers deletionTimestamp = true <->
  finalizers <> [] /\ deletionTimestamp <> None.
Proof.
  unfold CheckFinalizers.
  destruct finalizers as [|f fs], deletionTimestamp as [t|]; simpl;
    split; intros H; try discriminate; try reflexivity;
    try (split; discriminate); destruct H as [H1 H2]; congruence.
Qed.

(** ** C5: objects labelled kor/used=true *)

Lemma global_items_without_used h fo r items acc :
  fold_left (global_item h fo r) items acc =
  fold_left (global_item h fo r) (filter not_kor_used items) acc.
Proof.
  revert acc. induction items as [|item items IH]; intros acc; simpl; auto.
  unfold not_kor_used at 1.
  destruct (String.eqb (index "" "kor/used" (GetLabels item)) "true") eqn:U; simpl.
  - rewrite <- IH. f_equal. unfold global_item. now rewrite U.
  - apply IH.
Qed.

Lemma scoped_items_without_used h fo r items acc :
  fold_left (scoped_item h fo r) items acc =
  fold_left (scoped_item h fo r) (filter not_kor_used items) acc.
Proof.
  revert acc. induction items as [|item items IH]; intros acc; simpl; auto.
  unfold not_kor_used at 1.
  destruct (String.eqb (index "" "kor/used" (GetLabels item)) "true") eqn:U; simpl.
  - rewrite <- IH. f_equal. unfold scoped_item. now rewrite U.
  - apply IH.
Qed.

Lemma global_resources_without_used c h fo gvs gv rs st :
  global_resources c h fo gvs gv rs st = global_resources (without_kor_used c) h fo gvs gv rs st.
Proof.
  revert st. induction rs as [|r rs IH]; intros [log acc]; simpl; auto.
  destruct (Namespaced r && Contains (Verbs r) "list"); auto.
  destruct (DynamicList c (WithResource gv (Name r)) NamespaceAll); simpl; auto.
  now rewrite IH, global_items_without_used.
Qed.

Lemma scoped_resources_without_used c h fo namespace gvs gv rs st :
  scoped_resources c h fo namespace gvs gv rs st =
  scoped_resources (without_kor_used c) h fo namespace gvs gv rs st.
Proof.
  revert st. induction rs as [|r rs IH]; intros [log acc]; simpl; auto.
  destruct (Namespaced r && Contains (Verbs r) "list"); auto.
  destruct (DynamicList c (WithResource gv (Name r)) namespace); simpl; auto.
  now rewrite IH, scoped_items_without_used.
Qed.

Lemma global_groups_without_used c h fo rts st :
  global_groups c h fo rts st = global_groups (without_kor_used c) h fo rts st.
Proof.
  revert st. induction rts as [|gl rts IH]; intros st; simpl; auto.
  destruct (ParseGroupVersion (GroupVersion gl)); auto.
  now rewrite IH, global_resources_without_used.
Qed.

Lemma global_scan_without_used c h fo namespaces :
  getResourcesWithFinalizersPendingDeletion c h fo namespaces =
  getResourcesWithFinalizersPendingDeletion (without_kor_used c) h fo namespaces.
Proof.
  unfold getResourcesWithFinalizersPendingDeletion. simpl.
  destruct (ServerPreferredResources c) as [rts|]; auto.
  apply global_groups_without_used.
Qed.

Lemma scoped_groups_without_used c h fo namespace rts st :
  scoped_groups c h fo namespace rts st = scoped_groups (without_kor_used c) h fo namespace rts st.
Proof.
  revert st. induction rts as [|gl rts IH]; intros st; simpl; auto.
  destruct (ParseGroupVersion (GroupVersion gl)); auto.
  now rewrite IH, scoped_resources_without_used.
Qed.

Lemma scoped_scan_without_used c h fo namespace :
  getNamespacedResourcesWithFinalizersPendingDeletion c h fo namespace =
  getNamespacedResourcesWithFinalizersPendingDeletion (without_kor_used c) h fo namespace.
Proof.
  unfold getNamespacedResourcesWithFinalizersPendingDeletion. simpl.
  destruct (ServerPreferredResources c) as [rts|]; auto.
  apply scoped_groups_without_used.
Qed.

Lemma GetUnusedfinalizers_without_used c h fo l outputFormat opts :
  GetUnusedfinalizers c h fo l outputFormat opts =
  GetUnusedfinalizers (without_kor_used c) h fo l outputFormat opts.
Proof.
  unfold GetUnusedfinalizers, collect.
  rewrite global_scan_without_used.
  assert (Hs : forall namespaces st,
    scoped_report c h fo opts namespaces st = scoped_report (without_kor_used c) h fo opts namespaces st).
  { induction namespaces as [|ns nss IH]; intros [[log buf] resp]; simpl; auto.
    rewrite scoped_scan_without_used.
    destruct (getNamespacedResourcesWithFinalizersPendingDeletion (without_kor_used c) h fo ns)
      as [ev [code|m [e|]]]; auto. }
  now rewrite Hs.
Qed.

(** Claim C5.  The filter pipeline tests [kor/used == "true"] first: such
    an object leaves the accumulator of either scan unchanged whatever the
    exclusion-label and age predicates, its finalizers or its deletion
    timestamp; and the whole run of [GetUnusedfinalizers] (report, response
    and every effect) is the run on the cluster with all such objects
    removed. *)
Theorem kor_used_never_reported (c : Cluster) (h : Helpers) (fo : FilterOptions)
    (l : IncludeExcludeLists) (outputFormat : string) (opts : Opts)
    (r : APIResource) (item : Unstructured) (acc_g : NsIndex) (acc_s : TypeIndex)
    (Hused : index "" "kor/used" (GetLabels item) = "true") :
  global_item h fo r acc_g item = acc_g /\
  scoped_item h fo r acc_s item = acc_s /\
  GetUnusedfinalizers c h fo l outputFormat opts =
  GetUnusedfinalizers (without_kor_used c) h fo l outputFormat opts.
Proof.
  unfold global_item, scoped_item. rewrite Hused. simpl.
  split; [|split]; auto. apply GetUnusedfinalizers_without_used.
Qed.

(** ** C7: a failing list call skips one resource type *)

Lemma global_resources_app c h fo gvs gv rs1 rs2 st :
  global_resources c h fo gvs gv (rs1 ++ rs2) st =
  global_resources c h fo gvs gv rs2 (global_resources c h fo gvs gv rs1 st).
Proof.
  revert st. induction rs1 as [|r rs1 IH]; intros [log acc]; simpl; auto.
  destruct (Namespaced r && Contains (Verbs r) "list"); auto.
  destruct (DynamicList c (WithResource gv (Name r)) NamespaceAll); apply IH.
Qed.

Lemma scoped_resources_app c h fo namespace gvs gv rs1 rs2 st :
  scoped_resources c h fo namespace gvs gv (rs1 ++ rs2) st =
  scoped_resources c h fo namespace gvs gv rs2 (scoped_resources c h fo namespace gvs gv rs1 st).
Proof.
  revert st. induction rs1 as [|r rs1 IH]; intros [log acc]; simpl; auto.
  destruct (Namespaced r && Contains (Verbs r) "list"); auto.
  destruct (DynamicList c (WithResource gv (Name r)) namespace); apply IH.
Qed.

(** The accumulator does not depend on the log, and the log only grows. *)
Lemma global_resources_log c h fo gvs gv rs log log' acc :
  snd (global_resources c h fo gvs gv rs (log, acc)) =
  snd (global_resources c h fo gvs gv rs (log', acc)) /\
  exists ev, fst (global_resources c h fo gvs gv rs (log, acc)) = log ++ ev.
Proof.
  revert log log' acc. induction rs as [|r rs IH]; intros log log' acc; simpl.
  - split; [auto|exists []; now rewrite app_nil_r].
  - destruct (Namespaced r && Contains (Verbs r) "list"); [|apply IH].
    destruct (DynamicList c (WithResource gv (Name r)) NamespaceAll);
      (split; [apply IH|]);
      match goal with
      | |- context [global_resources _ _ _ _ _ _ (?l, ?a)] =>
          destruct (IH l l a) as [_ [ev Hev]]; rewrite Hev
      end;
      eexists; now rewrite <- app_assoc.
Qed.

Lemma scoped_resources_log c h fo namespace gvs gv rs log log' acc :
  snd (scoped_resources c h fo namespace gvs gv rs (log, acc)) =
  snd (scoped_resources c h fo namespace gvs gv rs (log', acc)) /\
  exists ev, fst (scoped_resources c h fo namespace gvs gv rs (log, acc)) = log ++ ev.
Proof.
  revert log log' acc. induction rs as [|r rs IH]; intros log log' acc; simpl.
  - split; [auto|exists []; now rewrite app_nil_r].
  - destruct (Namespaced r && Contains (Verbs r) "list"); [|apply IH].
    destruct (DynamicList c (WithResource gv (Name r)) namespace);
      (split; [apply IH|]);
      match goal with
      | |- context [scoped_resources _ _ _ _ _ _ _ (?l, ?a)] =>
          destruct (IH l l a) as [_ [ev Hev]]; rewrite Hev
      end;
      eexists; now rewrite <- app_assoc.
Qed.

(** Claim C7.  When the list call of a namespaced, listable resource type
    fails, the scan that made it reports the error (the [fmt.Printf] of
    lines 149 and 202) and goes on: the accumulated map is the one
    obtained with that type removed from its group, so the results of the
    types before it and the scan of the types after it are unaffected.
    Each scan is covered under the failure of its own list call only:
    the all-namespaces call for the global scan, the call in [namespace]
    for the scoped scan. *)
Theorem list_failure_skips_type (c : Cluster) (h : Helpers) (fo : FilterOptions)
    (namespace gvs : string) (gv : SchemaGroupVersion) (rs1 : list APIResource)
    (r : APIResource) (rs2 : list APIResource)
    (st_g : list Event * NsIndex) (st_s : list Event * TypeIndex)
    (Hnamespaced : Namespaced r = true) (Hverb : In "list" (Verbs r)) :
  (DynamicList c (WithResource gv (Name r)) NamespaceAll = None ->
   snd (global_resources c h fo gvs gv (rs1 ++ r :: rs2) st_g) =
   snd (global_resources c h fo gvs gv (rs1 ++ rs2) st_g) /\
   In (EStdout (DListResources gvs)) (fst (global_resources c h fo gvs gv (rs1 ++ r :: rs2) st_g))) /\
  (DynamicList c (WithResource gv (Name r)) namespace = None ->
   snd (scoped_resources c h fo namespace gvs gv (rs1 ++ r :: rs2) st_s) =
   snd (scoped_resources c h fo namespace gvs gv (rs1 ++ rs2) st_s) /\
   In (EStdout (DListResources gvs))
      (fst (scoped_resources c h fo namespace gvs gv (rs1 ++ r :: rs2) st_s))).
Proof.
  apply Contains_In in Hverb.
  rewrite !global_resources_app, !scoped_resources_app. split; intros Hfail.
  - destruct (global_resources c h fo gvs gv rs1 st_g) as [log acc].
    simpl. rewrite Hnamespaced, Hverb, Hfail. simpl.
    destruct (global_resources_log c h fo gvs gv rs2
                (log ++ [EList (WithResource gv (Name r)) NamespaceAll; EStdout (DListResources gvs)])
                log acc) as [Hg [ev Hev]].
    rewrite Hg, Hev.
    split; [reflexivity|]. apply in_or_app; left; apply in_or_app; right; simpl; auto.
  - destruct (scoped_resources c h fo namespace gvs gv rs1 st_s) as [slog sacc].
    simpl. rewrite Hnamespaced, Hverb, Hfail. simpl.
    destruct (scoped_resources_log c h fo namespace gvs gv rs2
                (slog ++ [EList (WithResource gv (Name r)) namespace; EStdout (DListResources gvs)])
                slog sacc) as [Hs [sev Hsev]].
    rewrite Hs, Hsev.
    split; [reflexivity|]. apply in_or_app; left; apply in_or_app; right; simpl; auto.
Qed.

(** ** C8: discovery failure exits, an unparsable group/version returns *)

(** Claim C8.  When [ServerPreferredResources] fails, each scan prints a
    diagnostic and exits with code 1 before any list call, and so does
    [GetUnusedfinalizers] (unless, in scoped mode, the namespace list is
    empty and no scan runs at all).  When it succeeds, neither scan exits:
    each returns, with a non-nil error exactly when some group/version
    string of the catalog does not parse. *)
Theorem discovery_failure_exits (c : Cluster) (h : Helpers) (fo : FilterOptions)
    (namespaces : list string) (namespace : string) (l : IncludeExcludeLists)
    (outputFormat : string) (opts : Opts) :
  match ServerPreferredResources c with
  | None =>
      getResourcesWithFinalizersPendingDeletion c h fo namespaces =
        ([EDiscovery; EStdout DFetchServerResources; EExit 1], Exit 1) /\
      getNamespacedResourcesWithFinalizersPendingDeletion c h fo namespace =
        ([EDiscovery; EStdout DFetchServerResources; EExit 1], Exit 1) /\
      no_list_call (fst (GetUnusedfinalizers c h fo l outputFormat opts)) /\
      (snd (GetUnusedfinalizers c h fo l outputFormat opts) = Exit 1 \/
       (is_global_mode l = false /\ SetNamespaceList h l = []))
  | Some resourceTypes =>
      (exists log m err,
         getResourcesWithFinalizersPendingDeletion c h fo namespaces = (log, Return m err) /\
         (err = None <-> forall gl, In gl resourceTypes -> ParseGroupVersion (GroupVersion gl) <> None)) /\
      (exists log m err,
         getNamespacedResourcesWithFinalizersPendingDeletion c h fo namespace = (log, Return m err) /\
         (err = None <-> forall gl, In gl resourceTypes -> ParseGroupVersion (GroupVersion gl) <> None))
  end.
Proof.
  destruct (ServerPreferredResources c) as [rts|] eqn:D.
  - unfold getResourcesWithFinalizersPendingDeletion,
      getNamespacedResourcesWithFinalizersPendingDeletion. rewrite D. split.
    + destruct (global_groups_spec c h fo rts ([EDiscovery], [])) as (log & m & err & Heq & Herr & _).
      exists log, m, err. auto.
    + destruct (scoped_groups_spec c h fo namespace rts ([EDiscovery], [])) as (log & m & err & Heq & Herr & _).
      exists log, m, err. auto.
  - assert (Hg : forall nss, getResourcesWithFinalizersPendingDeletion c h fo nss =
                   ([EDiscovery; EStdout DFetchServerResources; EExit 1], Exit 1))
      by (intros; unfold getResourcesWithFinalizersPendingDeletion; now rewrite D).
    assert (Hs : forall ns, getNamespacedResourcesWithFinalizersPendingDeletion c h fo ns =
                   ([EDiscovery; EStdout DFetchServerResources; EExit 1], Exit 1))
      by (intros; unfold getNamespacedResourcesWithFinalizersPendingDeletion; now rewrite D).
    split; [apply Hg|split; [apply Hs|]].
    unfold GetUnusedfinalizers, collect. fold (is_global_mode l).
    destruct (is_global_mode l).
    + rewrite Hg. simpl. split; [|now left].
      unfold no_list_call. simpl. intros gvr ns H. intuition discriminate.
    + destruct (SetNamespaceList h l) as [|ns nss]; simpl.
      * destruct (MarshalIndent h []) as [j [e|]];
          [|destruct (unusedResourceFormatter h outputFormat "" opts j) as [out [e'|]]];
          simpl; (split; [|now right]); unfold no_list_call; simpl;
          intros gvr ns' H; intuition discriminate.
      * rewrite Hs. simpl. split; [|now left].
        unfold no_list_call. simpl. intros gvr ns' H. intuition discriminate.
Qed.

(** ** C9: the error returned by GetUnusedfinalizers *)

Lemma scoped_report_nil_error c h fo opts namespaces st :
  match snd (scoped_report c h fo opts namespaces st) with
  | Return _ e => e = None
  | Exit _ => True
  end.
Proof.
  revert st. induction namespaces as [|ns nss IH]; intros [[log b] rsp]; simpl; auto.
  destruct (getNamespacedResourcesWithFinalizersPendingDeletion c h fo ns)
    as [ev [code|m [e|]]]; simpl; auto; apply IH.
Qed.

(** Claim C9.  When [GetUnusedfinalizers] returns, its error is non-nil
    exactly when [json.MarshalIndent] of the final response fails; when it
    is nil the returned string is whatever [unusedResourceFormatter]
    returned, and a formatter error is only printed as a diagnostic. *)
Theorem GetUnusedfinalizers_error_iff_marshal (c : Cluster) (h : Helpers) (fo : FilterOptions)
    (l : IncludeExcludeLists) (outputFormat : string) (opts : Opts) :
  match snd (GetUnusedfinalizers c h fo l outputFormat opts) with
  | Exit _ => final_response c h fo l opts = None
  | Return out err =>
      (err <> None <->
       exists response jsonResponse e, final_response c h fo l opts = Some response /\
         MarshalIndent h response = (jsonResponse, Some e)) /\
      (err = None ->
       exists outputBuffer response jsonResponse ferr,
         snd (collect c h fo l opts) = Return (outputBuffer, response) None /\
         MarshalIndent h response = (jsonResponse, None) /\
         unusedResourceFormatter h outputFormat outputBuffer opts jsonResponse = (out, ferr) /\
         (ferr <> None -> In (EStdout DFormatter) (fst (GetUnusedfinalizers c h fo l outputFormat opts))))
  end.
Proof.
  unfold GetUnusedfinalizers, final_response.
  assert (Hret : forall st, snd (collect c h fo l opts) = st ->
            match st with Return _ e => e = None | Exit _ => True end).
  { intros st <-. unfold collect.
    destruct (is_global_mode l) eqn:G; unfold is_global_mode in G; rewrite G.
    - destruct (getResourcesWithFinalizersPendingDeletion c h fo (SetNamespaceList h l))
        as [ev [code|m e]]; simpl; auto.
      lazymatch goal with
      | |- context [global_report ?a ?b ?x ?y ?z] => destruct (global_report a b x y z) as [[lg b'] rsp]
      end. reflexivity.
    - apply scoped_report_nil_error. }
  destruct (collect c h fo l opts) as [log [code|[outputBuffer response] e0]] eqn:C; simpl; auto.
  specialize (Hret _ eq_refl). simpl in Hret. subst e0.
  destruct (MarshalIndent h response) as [jsonResponse [e|]] eqn:M; simpl.
  - split.
    + split; [intros _; exists response, jsonResponse, e; auto|congruence].
    + discriminate.
  - destruct (unusedResourceFormatter h outputFormat outputBuffer opts jsonResponse)
      as [out ferr] eqn:F; simpl. split.
    + split; [congruence|intros (r & j & e & Hr & Hm); injection Hr as <-; congruence].
    + intros _. exists outputBuffer, response, jsonResponse, ferr. repeat split; auto.
      destruct ferr; simpl; [|congruence]. intros _. apply in_or_app. right. now left.
Qed.

(** ** The shape of the logs *)

Lemma discoveries_app l1 l2 : discoveries (l1 ++ l2) = discoveries l1 + discoveries l2.
Proof. unfold discoveries. now rewrite filter_app, length_app. Qed.

Lemma global_resources_events c h fo gvs gv rs log acc :
  exists ev, fst (global_resources c h fo gvs gv rs (log, acc)) = log ++ ev /\
             Forall (scan_event NamespaceAll) ev.
Proof.
  revert log acc. induction rs as [|r rs IH]; intros log acc; simpl.
  - exists []. now rewrite app_nil_r.
  - destruct (Namespaced r && Contains (Verbs r) "list"); [|apply IH].
    destruct (DynamicList c (WithResource gv (Name r)) NamespaceAll);
      match goal with
      | |- context [global_resources _ _ _ _ _ _ (?l, ?a)] =>
          destruct (IH l a) as [ev [Hev HF]]; rewrite Hev
      end;
      eexists; (split; [now rewrite <- app_assoc|]);
      apply Forall_app; split; auto; repeat constructor.
Qed.

Lemma scoped_resources_events c h fo namespace gvs gv rs log acc :
  exists ev, fst (scoped_resources c h fo namespace gvs gv rs (log, acc)) = log ++ ev /\
             Forall (scan_event namespace) ev.
Proof.
  revert log acc. induction rs as [|r rs IH]; intros log acc; simpl.
  - exists []. now rewrite app_nil_r.
  - destruct (Namespaced r && Contains (Verbs r) "list"); [|apply IH].
    destruct (DynamicList c (WithResource gv (Name r)) namespace);
      match goal with
      | |- context [scoped_resources _ _ _ _ _ _ _ (?l, ?a)] =>
          destruct (IH l a) as [ev [Hev HF]]; rewrite Hev
      end;
      eexists; (split; [now rewrite <- app_assoc|]);
      apply Forall_app; split; auto; repeat constructor.
Qed.

Lemma global_scan_events c h fo namespaces :
  exists ev, fst (getResourcesWithFinalizersPendingDeletion c h fo namespaces) = EDiscovery :: ev /\
             Forall (scan_event NamespaceAll) ev.
Proof.
  unfold getResourcesWithFinalizersPendingDeletion.
  destruct (ServerPreferredResources c) as [rts|]; [|eexists; split; [reflexivity|repeat constructor]].
  assert (H : forall log acc, exists ev, fst (global_groups c h fo rts (log, acc)) = log ++ ev /\
                                      Forall (scan_event NamespaceAll) ev).
  { induction rts as [|gl rts IH]; intros log acc; simpl.
    - exists []. now rewrite app_nil_r.
    - destruct (ParseGroupVersion (GroupVersion gl)) as [gv|]; simpl;
        [|exists []; now rewrite app_nil_r].
      destruct (global_resources_events c h fo (GroupVersion gl) gv (APIResources gl) log acc)
        as [ev1 [H1 F1]].
      destruct (global_resources c h fo (GroupVersion gl) gv (APIResources gl) (log, acc))
        as [log1 acc1]. simpl in H1. subst log1.
      destruct (IH (log ++ ev1) acc1) as [ev2 [H2 F2]]. rewrite H2.
      exists (ev1 ++ ev2). split; [now rewrite app_assoc|]. now apply Forall_app. }
  apply (H [EDiscovery] []).
Qed.

Lemma scoped_scan_events c h fo namespace :
  exists ev, fst (getNamespacedResourcesWithFinalizersPendingDeletion c h fo namespace) = EDiscovery :: ev /\
             Forall (scan_event namespace) ev.
Proof.
  unfold getNamespacedResourcesWithFinalizersPendingDeletion.
  destruct (ServerPreferredResources c) as [rts|]; [|eexists; split; [reflexivity|repeat constructor]].
  assert (H : forall log acc, exists ev, fst (scoped_groups c h fo namespace rts (log, acc)) = log ++ ev /\
                                      Forall (scan_event namespace) ev).
  { induction rts as [|gl rts IH]; intros log acc; simpl.
    - exists []. now rewrite app_nil_r.
    - destruct (ParseGroupVersion (GroupVersion gl)) as [gv|]; simpl;
        [|exists []; now rewrite app_nil_r].
      destruct (scoped_resources_events c h fo namespace (GroupVersion gl) gv (APIResources gl) log acc)
        as [ev1 [H1 F1]].
      destruct (scoped_resources c h fo namespace (GroupVersion gl) gv (APIResources gl) (log, acc))
        as [log1 acc1]. simpl in H1. subst log1.
      destruct (IH (log ++ ev1) acc1) as [ev2 [H2 F2]]. rewrite H2.
      exists (ev1 ++ ev2). split; [now rewrite app_assoc|]. now apply Forall_app. }
  apply (H [EDiscovery] []).
Qed.

Lemma Contains_false s v : Contains s v = false -> ~ In v s.
Proof. intros H Hin. apply Contains_In in Hin. congruence. Qed.

Lemma In_insert {A} (p : string * A) k v m : In p (insert k v m) -> p = (k, v) \/ In p m.
Proof.
  induction m as [|[k' v'] m IH]; simpl.
  - intuition.
  - destruct (String.eqb k k'); simpl; intuition.
Qed.

Lemma delete_events_no_discovery b ns ev :
  Forall (delete_event b ns) ev -> discoveries ev = 0.
Proof.
  induction 1 as [|e ev He _ IH]; auto.
  unfold discoveries in *. destruct e; simpl in *; tauto.
Qed.

Lemma delete_with_finalizer_loop_events h opts namespace data log :
  exists ev, delete_with_finalizer_loop h opts namespace data log = log ++ ev /\
             Forall (delete_event true namespace) ev.
Proof.
  revert log. induction data as [|[ty names] data IH]; intros log; simpl.
  - exists []. now rewrite app_nil_r.
  - destruct (DeleteFlag opts); [|apply IH].
    destruct (DeleteResourceWithFinalizer h names namespace ty (NoInteractive opts)) as [rest' err].
    match goal with
    | |- context [delete_with_finalizer_loop _ _ _ _ ?l] =>
        destruct (IH l) as [ev [Hev HF]]; rewrite Hev
    end.
    eexists. split; [now rewrite <- app_assoc|].
    apply Forall_app. split; auto. destruct err; repeat constructor.
Qed.

Lemma delete_loop_events h opts namespace data log :
  exists ev, delete_loop h opts namespace data log = log ++ ev /\
             Forall (delete_event false namespace) ev.
Proof.
  revert log. induction data as [|[ty names] data IH]; intros log; simpl.
  - exists []. now rewrite app_nil_r.
  - destruct (DeleteFlag opts); [|apply IH].
    destruct (DeleteResource h names namespace ty (NoInteractive opts)) as [rest' err].
    match goal with
    | |- context [delete_loop _ _ _ _ ?l] =>
        destruct (IH l) as [ev [Hev HF]]; rewrite Hev
    end.
    eexists. split; [now rewrite <- app_assoc|].
    apply Forall_app. split; auto. destruct err; repeat constructor.
Qed.

Lemma global_report_spec h opts namespaces diffs log buf resp log' buf' resp' :
  global_report h opts namespaces diffs (log, buf, resp) = (log', buf', resp') ->
  (exists ev, log' = log ++ ev /\ Forall (global_event namespaces) ev /\ discoveries ev = 0) /\
  (forall k, In k (keys resp') <-> In k (keys resp) \/ (In k namespaces /\ In k (keys diffs))) /\
  (forall p, In p resp' -> In p resp \/ In p diffs).
Proof.
  revert log buf resp. induction diffs as [|[ns data] diffs IH]; intros log buf resp E; simpl in E.
  - injection E as <- <- <-.
    split; [exists []; rewrite app_nil_r; repeat constructor|]. split; [|tauto].
    intros k. simpl. tauto.
  - destruct (Contains namespaces ns) eqn:Hc.
    + destruct (delete_with_finalizer_loop_events h opts ns data log) as [ev1 [H1 F1]].
      rewrite H1 in E. apply IH in E.
      destruct E as [[ev2 [H2 [F2 D2]]] [Hk Hp]]. split; [|split].
      * exists (ev1 ++ ev2). rewrite H2, app_assoc. split; [reflexivity|split].
        -- apply Forall_app. split; auto.
           apply Contains_In in Hc. refine (Forall_impl _ _ F1).
           intros e. destruct e; simpl; intuition congruence.
        -- rewrite discoveries_app, D2. now rewrite (delete_events_no_discovery _ _ _ F1).
      * intros k. rewrite Hk, in_keys_insert. apply Contains_In in Hc. simpl.
        split; [intros [[->|H]|H]|intros [H|[Hn [->|H]]]]; tauto.
      * intros p Hin. simpl. destruct (Hp p Hin) as [H|H]; [|tauto].
        destruct (In_insert _ _ _ _ H); [subst; tauto|tauto].
    + apply IH in E. destruct E as [Hl [Hk Hp]]. split; [exact Hl|split].
      * intros k. rewrite Hk. apply Contains_false in Hc. simpl.
        split; [intros [H|[Hn H]]|intros [H|[Hn [->|H]]]]; tauto.
      * intros p Hin. simpl. destruct (Hp p Hin); tauto.
Qed.

Lemma scan_events_no_discovery ns ev : Forall (scan_event ns) ev -> discoveries ev = 0.
Proof.
  induction 1 as [|e ev He _ IH]; auto.
  unfold discoveries in *. destruct e; simpl in *; tauto.
Qed.

Lemma scoped_report_spec c h fo opts full nss log buf resp log' r :
  incl nss full ->
  scoped_report c h fo opts nss (log, buf, resp) = (log', r) ->
  (exists ev, log' = log ++ ev /\ Forall (scoped_event full) ev /\
     discoveries ev <= length nss /\
     match r with Return _ _ => discoveries ev = length nss | Exit _ => True end) /\
  match r with
  | Return (_, resp') _ =>
      (forall k, In k (keys resp') <-> In k (keys resp) \/ (In k nss /\ scan_ok c h fo k)) /\
      (forall k v, In (k, v) resp' -> In (k, v) resp \/
         (In k nss /\ snd (getNamespacedResourcesWithFinalizersPendingDeletion c h fo k) = Return v None))
  | Exit _ => True
  end.
Proof.
  revert log buf resp. induction nss as [|ns nss IH]; intros log buf resp Hincl E; simpl in E.
  - injection E as <- <-. split.
    + exists []. rewrite app_nil_r. repeat split; auto.
    + split; [intros k; simpl; tauto|intros k v H; tauto].
  - assert (Hns : In ns full) by (apply Hincl; now left).
    assert (Hincl' : incl nss full) by (intros x Hx; apply Hincl; now right).
    destruct (scoped_scan_events c h fo ns) as [evs [Hev0 Fevs]].
    destruct (getNamespacedResourcesWithFinalizersPendingDeletion c h fo ns) as [ev0 r0] eqn:S.
    simpl in Hev0. subst ev0.
    assert (F0 : Forall (scoped_event full) (EDiscovery :: evs)).
    { constructor; [exact I|]. refine (Forall_impl _ _ Fevs).
      intros e. destruct e; simpl; intuition congruence. }
    assert (D0 : discoveries (EDiscovery :: evs) = 1).
    { unfold discoveries. simpl. f_equal. exact (scan_events_no_discovery _ _ Fevs). }
    destruct r0 as [code|m [e|]].
    + injection E as <- <-. split; [|exact I].
      exists (EDiscovery :: evs). rewrite D0. simpl. repeat split; auto. lia.
    + apply IH in E; [|exact Hincl'].
      destruct E as [[ev2 [H2 [F2 [D2 R2]]]] Hr].
      split.
      * exists ((EDiscovery :: evs) ++ [EStderr (DProcessNamespace ns)] ++ ev2).
        rewrite H2, !app_assoc. split; [reflexivity|].
        rewrite !discoveries_app, D0. split.
        -- apply Forall_app; split; auto. apply Forall_app; split; auto. repeat constructor.
        -- simpl. split; [lia|]. destruct r; [exact I|lia].
      * destruct r as [|[b' resp'] err]; [exact I|]. destruct Hr as [Hk Hv]. split.
        -- intros k. rewrite Hk. simpl. split; [intros [H|[Hn Hok]]; tauto|].
           intros [H|[[<-|Hn] Hok]]; [tauto| |tauto].
           destruct Hok as [m' Hm']. rewrite S in Hm'. discriminate.
        -- intros k v H. simpl. destruct (Hv k v H) as [H'|[Hn Hs]]; tauto.
    + destruct (delete_loop_events h opts ns m (log ++ EDiscovery :: evs)) as [ev1 [H1 F1]].
      rewrite H1 in E. apply IH in E; [|exact Hincl'].
      destruct E as [[ev2 [H2 [F2 [D2 R2]]]] Hr].
      split.
      * exists ((EDiscovery :: evs) ++ ev1 ++ ev2).
        rewrite H2, !app_assoc. split; [reflexivity|].
        rewrite !discoveries_app, D0, (delete_events_no_discovery _ _ _ F1). split.
        -- apply Forall_app; split; auto. apply Forall_app; split; auto.
           refine (Forall_impl _ _ F1). intros e. destruct e; simpl; intuition congruence.
        -- simpl. split; [lia|]. destruct r; [exact I|lia].
      * destruct r as [|[b' resp'] err]; [exact I|]. destruct Hr as [Hk Hv]. split.
        -- intros k. rewrite Hk, in_keys_insert. simpl.
           assert (Hok : scan_ok c h fo ns) by (exists m; now rewrite S).
           split; [intros [[->|H]|[Hn Hok']]; tauto|].
           intros [H|[[<-|Hn] Hok']]; tauto.
        -- intros k v H. simpl. destruct (Hv k v H) as [H'|[Hn Hs]]; [|tauto].
           destruct (In_insert _ _ _ _ H') as [Heq|H'']; [|tauto].
           injection Heq as -> ->. right. split; [now left|now rewrite S].
Qed.

(** ** The two branches of GetUnusedfinalizers *)

Lemma collect_global_spec c h fo l opts :
  is_global_mode l = true ->
  let namespaces := SetNamespaceList h l in
  Forall (global_event namespaces) (fst (collect c h fo l opts)) /\
  discoveries (fst (collect c h fo l opts)) = 1 /\
  match snd (collect c h fo l opts) with
  | Return (_, response) _ =>
      exists m err,
        snd (getResourcesWithFinalizersPendingDeletion c h fo namespaces) = Return m err /\
        (forall k, In k (keys response) <-> In k namespaces /\ In k (keys m)) /\
        (forall p, In p response -> In p m)
  | Exit _ => True
  end.
Proof.
  intros G namespaces. unfold collect. fold (is_global_mode l). rewrite G. fold namespaces.
  destruct (global_scan_events c h fo namespaces) as [evs [Hev Fevs]].
  assert (F0 : Forall (global_event namespaces) (EDiscovery :: evs)).
  { constructor; [exact I|]. refine (Forall_impl _ _ Fevs).
    intros e. destruct e; simpl; intuition congruence. }
  assert (D0 : discoveries (EDiscovery :: evs) = 1).
  { unfold discoveries. simpl. f_equal. exact (scan_events_no_discovery _ _ Fevs). }
  destruct (getResourcesWithFinalizersPendingDeletion c h fo namespaces) as [ev0 [code|m err]] eqn:S;
    simpl in Hev; subst ev0; [simpl; tauto|].
  set (log1 := match err with
               | Some _ => (EDiscovery :: evs) ++ [EStderr DProcessResources]
               | None => EDiscovery :: evs
               end).
  assert (F1 : Forall (global_event namespaces) log1 /\ discoveries log1 = 1).
  { unfold log1. destruct err; [|tauto]. rewrite discoveries_app, D0. split; [|reflexivity].
    apply Forall_app. split; auto. repeat constructor. }
  destruct (global_report h opts namespaces m (log1, ""%string, [])) as [[lg b] rsp] eqn:GR.
  apply global_report_spec in GR. destruct GR as [[ev [Hl [Fe De]]] [Hk Hp]].
  simpl. subst lg. rewrite discoveries_app, De. destruct F1 as [F1 D1].
  split; [apply Forall_app; auto|split; [lia|]].
  exists m, err. split; [reflexivity|split].
  - intros k. rewrite Hk. simpl. tauto.
  - intros p Hin. destruct (Hp p Hin) as [[]|H]; exact H.
Qed.

Lemma collect_scoped_spec c h fo l opts :
  is_global_mode l = false ->
  let namespaces := SetNamespaceList h l in
  Forall (scoped_event namespaces) (fst (collect c h fo l opts)) /\
  discoveries (fst (collect c h fo l opts)) <= length namespaces /\
  match snd (collect c h fo l opts) with
  | Return (_, response) _ =>
      discoveries (fst (collect c h fo l opts)) = length namespaces /\
      (forall k, In k (keys response) <-> In k namespaces /\ scan_ok c h fo k) /\
      (forall k v, In (k, v) response -> In k namespaces /\
         snd (getNamespacedResourcesWithFinalizersPendingDeletion c h fo k) = Return v None)
  | Exit _ => True
  end.
Proof.
  intros G namespaces. unfold collect. fold (is_global_mode l). rewrite G. fold namespaces.
  destruct (scoped_report c h fo opts namespaces ([], ""%string, [])) as [lg r] eqn:E.
  apply (scoped_report_spec c h fo opts namespaces) in E; [|intros x Hx; exact Hx].
  destruct E as [[ev [Hl [F [D R]]]] Hr]. simpl in Hl. subst lg. simpl.
  split; [exact F|split; [exact D|]].
  destruct r as [code|[b resp] err]; [exact I|]. destruct Hr as [Hk Hv].
  split; [exact R|split].
  - intros k. rewrite Hk. simpl. tauto.
  - intros k v H. destruct (Hv k v H) as [[]|H']; exact H'.
Qed.

Lemma GetUnusedfinalizers_log c h fo l outputFormat opts :
  exists ev, fst (GetUnusedfinalizers c h fo l outputFormat opts) = fst (collect c h fo l opts) ++ ev /\
    Forall (fun e => e = EStdout DFormatter) ev /\
    match snd (collect c h fo l opts) with
    | Exit code => snd (GetUnusedfinalizers c h fo l outputFormat opts) = Exit code
    | Return _ _ => exists out err, snd (GetUnusedfinalizers c h fo l outputFormat opts) = Return out err
    end.
Proof.
  unfold GetUnusedfinalizers.
  destruct (collect c h fo l opts) as [log [code|[outputBuffer response] e0]]; simpl.
  - exists []. rewrite app_nil_r. auto.
  - destruct (MarshalIndent h response) as [j [e|]]; simpl.
    + exists []. rewrite app_nil_r. eauto.
    + destruct (unusedResourceFormatter h outputFormat outputBuffer opts j) as [out [fe|]]; simpl.
      * exists [EStdout DFormatter]. split; [reflexivity|split; [repeat constructor|eauto]].
      * exists []. rewrite app_nil_r. eauto.
Qed.

(** ** Invariants of the accumulators *)

Lemma lookup_In {A} k (m : list (string * A)) v : lookup k m = Some v -> In (k, v) m.
Proof.
  induction m as [|[k' v'] m IH]; simpl; [discriminate|].
  destruct (String.eqb_spec k k') as [->|]; [intros [= ->]; now left|].
  intros H. right. auto.
Qed.

Lemma index_In {A} (d : A) k m : index d k m = d \/ In (k, index d k m) m.
Proof.
  unfold index. destruct (lookup k m) eqn:E; [right; now apply lookup_In|now left].
Qed.

Lemma has_entry_keys m ns ty n : has_entry m ns ty n -> In ns (keys m).
Proof.
  unfold has_entry. rewrite in_keys_lookup. intros H Hn.
  unfold index in H. unfold TypeIndex in Hn. rewrite Hn in H. simpl in H. exact H.
Qed.

Lemma global_item_keys h fo r acc item k :
  In k (keys (global_item h fo r acc item)) <->
  In k (keys acc) \/ (selected h fo item = true /\ k = GetNamespace item).
Proof.
  unfold global_item, selected.
  destruct (String.eqb (index "" "kor/used" (GetLabels item)) "true"); simpl;
    [intuition discriminate|].
  destruct (fst (HasExcludedLabel h (GetLabels item) (ExcludeLabels fo))); simpl;
    [intuition discriminate|].
  destruct (fst (HasIncludedAge h (GetCreationTimestamp item) fo)); simpl;
    [|intuition discriminate].
  destruct (CheckFinalizers (GetFinalizers item) (GetDeletionTimestamp item));
    [|intuition discriminate].
  rewrite in_keys_insert.
  destruct (lookup (GetNamespace item) acc); [|rewrite in_keys_insert]; intuition.
Qed.

Lemma global_item_inv h fo r acc item :
  keys_have_entries acc -> nonempty_namespaces acc ->
  keys_have_entries (global_item h fo r acc item) /\
  nonempty_namespaces (global_item h fo r acc item).
Proof.
  intros HK HN. split.
  - intros k. rewrite global_item_keys. split.
    + intros [Hk|[Hs ->]].
      * apply HK in Hk as (ty & n & He). exists ty, n. apply global_item_entry. now left.
      * exists (Name r), (GetName item). apply global_item_entry. right. tauto.
    + intros (ty & n & He). apply global_item_entry in He as [He|(Hs & -> & _)].
      * left. now apply has_entry_keys in He.
      * right. tauto.
  - unfold global_item.
    destruct (String.eqb (index "" "kor/used" (GetLabels item)) "true"); [exact HN|].
    destruct (fst (HasExcludedLabel h (GetLabels item) (ExcludeLabels fo))); [exact HN|].
    destruct (negb (fst (HasIncludedAge h (GetCreationTimestamp item) fo))); [exact HN|].
    destruct (CheckFinalizers (GetFinalizers item) (GetDeletionTimestamp item)); [|exact HN].
    set (acc1 := match lookup (GetNamespace item) acc with
                 | None => insert (GetNamespace item) [] acc
                 | Some _ => acc
                 end).
    assert (HN1 : nonempty_namespaces acc1).
    { unfold acc1. destruct (lookup (GetNamespace item) acc); [exact HN|].
      intros ns t Hin. apply In_insert in Hin as [[= _ ->]|Hin]; [intros ty names []|].
      exact (HN ns t Hin). }
    intros ns t Hin. apply In_insert in Hin as [[= _ ->]|Hin]; [|exact (HN1 ns t Hin)].
    intros ty names Hin. apply In_insert in Hin as [[= _ ->]|Hin].
    + intros Hnil. destruct (index [] (Name r) (index [] (GetNamespace item) acc1)); discriminate.
    + destruct (index_In [] (GetNamespace item) acc1) as [E|E];
        [rewrite E in Hin; destruct Hin|exact (HN1 _ _ E ty names Hin)].
Qed.

Lemma scoped_item_inv h fo r acc item :
  nonempty_types acc -> nonempty_types (scoped_item h fo r acc item).
Proof.
  intros HN. unfold scoped_item.
  destruct (String.eqb (index "" "kor/used" (GetLabels item)) "true"); [exact HN|].
  destruct (fst (HasExcludedLabel h (GetLabels item) (ExcludeLabels fo))); [exact HN|].
  destruct (negb (fst (HasIncludedAge h (GetCreationTimestamp item) fo))); [exact HN|].
  destruct (CheckFinalizers (GetFinalizers item) (GetDeletionTimestamp item)); [|exact HN].
  intros ty names Hin. apply In_insert in Hin as [[= _ ->]|Hin]; [|exact (HN ty names Hin)].
  intros Hnil. destruct (index [] (Name r) acc); discriminate.
Qed.

Lemma global_scan_inv c h fo namespaces m err :
  snd (getResourcesWithFinalizersPendingDeletion c h fo namespaces) = Return m err ->
  keys_have_entries m /\ nonempty_namespaces m.
Proof.
  assert (Hf : forall r items acc, keys_have_entries acc /\ nonempty_namespaces acc ->
            keys_have_entries (fold_left (global_item h fo r) items acc) /\
            nonempty_namespaces (fold_left (global_item h fo r) items acc)).
  { intros r items. induction items as [|item items IH]; intros acc [HK HN]; simpl; auto.
    apply IH, global_item_inv; auto. }
  assert (Hr : forall gvs gv rs st, keys_have_entries (snd st) /\ nonempty_namespaces (snd st) ->
            keys_have_entries (snd (global_resources c h fo gvs gv rs st)) /\
            nonempty_namespaces (snd (global_resources c h fo gvs gv rs st))).
  { intros gvs gv rs. induction rs as [|r rs IH]; intros [log acc] H; simpl; auto.
    destruct (Namespaced r && Contains (Verbs r) "list"); [|now apply IH].
    destruct (DynamicList c (WithResource gv (Name r)) NamespaceAll); apply IH; simpl; auto. }
  assert (Hg : forall rts st, keys_have_entries (snd st) /\ nonempty_namespaces (snd st) ->
            forall m err, snd (global_groups c h fo rts st) = Return m err ->
            keys_have_entries m /\ nonempty_namespaces m).
  { induction rts as [|gl rts IH]; intros st H m' err'; simpl.
    - intros [= <- _]. exact H.
    - destruct (ParseGroupVersion (GroupVersion gl)); [apply IH; now apply Hr|].
      simpl. intros [= <- _]. exact H. }
  unfold getResourcesWithFinalizersPendingDeletion.
  destruct (ServerPreferredResources c); [|discriminate].
  apply Hg. simpl. split; [|intros ns t []].
  intros k. simpl. split; [tauto|]. intros (ty & n & He). unfold has_entry in He. simpl in He. exact He.
Qed.

Lemma scoped_scan_inv c h fo namespace m err :
  snd (getNamespacedResourcesWithFinalizersPendingDeletion c h fo namespace) = Return m err ->
  nonempty_types m.
Proof.
  assert (Hf : forall r items acc, nonempty_types acc ->
            nonempty_types (fold_left (scoped_item h fo r) items acc)).
  { intros r items. induction items as [|item items IH]; intros acc HN; simpl; auto.
    apply IH, scoped_item_inv; auto. }
  assert (Hr : forall gvs gv rs st, nonempty_types (snd st) ->
            nonempty_types (snd (scoped_resources c h fo namespace gvs gv rs st))).
  { intros gvs gv rs. induction rs as [|r rs IH]; intros [log acc] H; simpl; auto.
    destruct (Namespaced r && Contains (Verbs r) "list"); [|now apply IH].
    destruct (DynamicList c (WithResource gv (Name r)) namespace); apply IH; simpl; auto. }
  assert (Hg : forall rts st, nonempty_types (snd st) ->
            forall m err, snd (scoped_groups c h fo namespace rts st) = Return m err ->
            nonempty_types m).
  { induction rts as [|gl rts IH]; intros st H m' err'; simpl.
    - intros [= <- _]. exact H.
    - destruct (ParseGroupVersion (GroupVersion gl)); [apply IH; now apply Hr|].
      simpl. intros [= <- _]. exact H. }
  unfold getNamespacedResourcesWithFinalizersPendingDeletion.
  destruct (ServerPreferredResources c); [|discriminate].
  apply Hg. intros ty names [].
Qed.

Lemma formatter_events ev :
  Forall (fun e => e = EStdout DFormatter) ev ->
  discoveries ev = 0 /\ (forall P, (forall d, P (EStdout d)) -> Forall P ev).
Proof.
  induction 1 as [|e ev He _ [D IH]]; [split; auto|subst e].
  split; [exact D|]. intros P HP. constructor; auto.
Qed.

Lemma is_global_mode_iff l :
  is_global_mode l = true <-> ExcludeListStr l = [] /\ IncludeListStr l = [].
Proof.
  unfold is_global_mode.
  destruct (ExcludeListStr l), (IncludeListStr l); simpl; intuition discriminate.
Qed.

(** ** C6: the choice between global and scoped mode *)

(** Claim C6.  [GetUnusedfinalizers] runs global mode exactly when both the
    include and the exclude lists are empty: then it starts one scan (one
    discovery call), every list call is all-namespaces and every delete
    goes through [DeleteResourceWithFinalizer].  Otherwise every list call
    and every delete ([DeleteResource], never the finalizer-aware one) is
    in a resolved namespace, and one scan is started per resolved namespace
    (all of them when the run does not exit). *)
Theorem mode_selection (c : Cluster) (h : Helpers) (fo : FilterOptions)
    (l : IncludeExcludeLists) (outputFormat : string) (opts : Opts) :
  (is_global_mode l = true <-> ExcludeListStr l = [] /\ IncludeListStr l = []) /\
  let namespaces := SetNamespaceList h l in
  let run := GetUnusedfinalizers c h fo l outputFormat opts in
  if is_global_mode l then
    Forall (global_event namespaces) (fst run) /\ discoveries (fst run) = 1
  else
    Forall (scoped_event namespaces) (fst run) /\
    discoveries (fst run) <= length namespaces /\
    match snd run with
    | Return _ _ => discoveries (fst run) = length namespaces
    | Exit _ => True
    end.
Proof.
  split; [apply is_global_mode_iff|]. intros namespaces run.
  destruct (GetUnusedfinalizers_log c h fo l outputFormat opts) as [ev [Hl [Fe Hs]]].
  destruct (formatter_events ev Fe) as [De Fev].
  unfold run. rewrite Hl, discoveries_app, De, Nat.add_0_r.
  destruct (is_global_mode l) eqn:G.
  - destruct (collect_global_spec c h fo l opts G) as [F [D _]].
    split; [|exact D]. apply Forall_app. split; [exact F|]. apply Fev. intros d. exact I.
  - destruct (collect_scoped_spec c h fo l opts G) as [F [D R]].
    split; [|split; [exact D|]].
    + apply Forall_app. split; [exact F|]. apply Fev. intros d. exact I.
    + destruct (snd (collect c h fo l opts)) as [code|[b resp] err].
      * rewrite Hs. exact I.
      * destruct Hs as (out & e & ->). exact (proj1 R).
Qed.

(** ** C10: global mode keeps only the resolved namespaces *)

(** Claim C10.  In global mode every namespace key of the final response
    is in the list returned by [SetNamespaceList], and every delete call
    (all through [DeleteResourceWithFinalizer]) is in such a namespace: a
    pending object found by the all-namespaces listing in any other
    namespace is neither reported nor deleted, and no diagnostic is
    emitted for it. *)
Theorem global_mode_drops_unlisted_namespaces (c : Cluster) (h : Helpers) (fo : FilterOptions)
    (l : IncludeExcludeLists) (outputFormat : string) (opts : Opts)
    (Hexcl : ExcludeListStr l = []) (Hincl : IncludeListStr l = []) :
  let namespaces := SetNamespaceList h l in
  let log := fst (GetUnusedfinalizers c h fo l outputFormat opts) in
  (forall ns ty names b, In (EDeleteWithFinalizer ns ty names b) log -> In ns namespaces) /\
  (forall ns ty names b, ~ In (EDelete ns ty names b) log) /\
  match final_response c h fo l opts with
  | Some response => forall ns, In ns (keys response) -> In ns namespaces
  | None => True
  end.
Proof.
  intros namespaces log.
  assert (G : is_global_mode l = true) by (apply is_global_mode_iff; auto).
  destruct (collect_global_spec c h fo l opts G) as [F [_ R]].
  destruct (GetUnusedfinalizers_log c h fo l outputFormat opts) as [ev [Hl [Fe _]]].
  destruct (formatter_events ev Fe) as [_ Fev].
  assert (FA : Forall (global_event namespaces) log).
  { unfold log. rewrite Hl. apply Forall_app. split; [exact F|]. apply Fev. intros d. exact I. }
  rewrite Forall_forall in FA. split; [|split].
  - intros ns ty names b Hin. exact (FA _ Hin).
  - intros ns ty names b Hin. exact (FA _ Hin).
  - unfold final_response. destruct (snd (collect c h fo l opts)) as [code|[b resp] err]; [exact I|].
    destruct R as (m & e & _ & Hk & _). intros ns Hns. now apply Hk in Hns.
Qed.

(** ** C4: the namespace keys of the response *)

(** Claim C4, as stated, fails in global mode.  The cluster has the
    namespace [default] and no object; the catalog holds [configmaps].  A
    global run lists [configmaps] in all namespaces (so [default] is
    scanned), but the response has no [default] key: the global scan only
    creates a namespace bucket for a pending object (lines 169-172).  The
    scoped run on the same cluster does create the empty [default] key. *)
Lemma global_response_omits_scanned_namespace :
  let c := demo_cluster [] in
  let h := demo_helpers ["default"] in
  let opts := mkOpts false false false in
  In (EList (mkGVR "" "v1" "configmaps") NamespaceAll)
     (fst (collect c h demo_filter all_namespaces opts)) /\
  final_response c h demo_filter all_namespaces opts = Some [] /\
  final_response c h demo_filter (mkIncludeExcludeLists ["default"] []) opts =
  Some [("default", [])].
Proof.
  split; [simpl; auto|split; reflexivity].
Qed.

(** Claim C4, corrected.  When no scan exits, every resource type of the
    response maps to a non-empty name list (types with no match are
    absent), and a namespace is a key of the response exactly when it is a
    resolved namespace and: in global mode, the global scan found at least
    one pending object in it; in scoped mode, its scoped scan returned
    without error (its key is present even when its map is empty). *)
Theorem response_keys (c : Cluster) (h : Helpers) (fo : FilterOptions)
    (l : IncludeExcludeLists) (opts : Opts) :
  let namespaces := SetNamespaceList h l in
  match final_response c h fo l opts with
  | Some response =>
      (forall ns t, In (ns, t) response -> nonempty_types t) /\
      (forall ns, In ns (keys response) <->
         In ns namespaces /\
         if is_global_mode l then exists ty n, global_pending c h fo namespaces ns ty n
         else scan_ok c h fo ns)
  | None => True
  end.
Proof.
  intros namespaces. unfold final_response.
  destruct (is_global_mode l) eqn:G.
  - destruct (collect_global_spec c h fo l opts G) as [_ [_ R]].
    destruct (snd (collect c h fo l opts)) as [code|[b resp] err]; [exact I|].
    destruct R as (m & e & S & Hk & Hp).
    destruct (global_scan_inv c h fo namespaces m e S) as [HK HN].
    unfold global_pending. fold namespaces in S. rewrite S. split.
    + intros ns t Hin. exact (HN ns t (Hp _ Hin)).
    + intros ns. unfold keys_have_entries in HK. rewrite Hk, HK. reflexivity.
  - destruct (collect_scoped_spec c h fo l opts G) as [_ [_ R]].
    destruct (snd (collect c h fo l opts)) as [code|[b resp] err]; [exact I|].
    destruct R as (_ & Hk & Hv). split; [|exact Hk].
    intros ns t Hin. destruct (Hv ns t Hin) as [_ S].
    exact (scoped_scan_inv c h fo ns t None S).
Qed.

(** ** C2: the delete results do not reach the report *)

Lemma global_report_response h opts opts' namespaces diffs log log' b b' resp :
  snd (global_report h opts namespaces diffs (log, b, resp)) =
  snd (global_report h opts' namespaces diffs (log', b', resp)).
Proof.
  revert log log' b b' resp.
  induction diffs as [|[namespace data] diffs IH]; intros log log' b b' resp; simpl; auto.
  destruct (Contains namespaces namespace); apply IH.
Qed.

Lemma scoped_report_response c h fo opts opts' namespaces log log' b b' resp :
  outcome_response (snd (scoped_report c h fo opts namespaces (log, b, resp))) =
  outcome_response (snd (scoped_report c h fo opts' namespaces (log', b', resp))).
Proof.
  revert log log' b b' resp.
  induction namespaces as [|namespace nss IH]; intros log log' b b' resp; simpl; auto.
  destruct (getNamespacedResourcesWithFinalizersPendingDeletion c h fo namespace)
    as [ev [code|m [e|]]]; simpl; auto.
Qed.

Lemma final_response_without_delete c h fo l opts :
  final_response c h fo l opts =
  final_response c h fo l (mkOpts false (NoInteractive opts) (Verbose opts)).
Proof.
  unfold final_response, collect.
  destruct (_ && _).
  - destruct (getResourcesWithFinalizersPendingDeletion c h fo (SetNamespaceList h l))
      as [ev [code|m err]]; [reflexivity|].
    pose proof (global_report_response h opts (mkOpts false (NoInteractive opts) (Verbose opts))
                  (SetNamespaceList h l) m
                  (match err with Some _ => ev ++ [EStderr DProcessResources] | None => ev end)
                  (match err with Some _ => ev ++ [EStderr DProcessResources] | None => ev end)
                  ""%string ""%string []) as H.
    revert H. unfold NsIndex, TypeIndex in *.
    destruct (global_report h opts _ _ _) as [[l1 b1] r1].
    destruct (global_report h (mkOpts false _ _) _ _ _) as [[l2 b2] r2].
    simpl. now intros ->.
  - exact (scoped_report_response c h fo opts _ (SetNamespaceList h l) [] [] ""%string ""%string []).
Qed.

(** Claim C2 does not hold of the code.  The residual name list returned by
    [DeleteResourceWithFinalizer] (line 245) or [DeleteResource] (line 266)
    is assigned to the range variable [resourceDiff] and dropped; the
    response keeps the map of the scan.  So the response of every run is
    the response of the same run with the delete flag off; and on a
    cluster with one pending config map [cm-a] in [default], with the delete
    flag and non-interactive set and a delete call that deletes every name
    (residual list empty), both modes call the delete driver on [cm-a] and
    still report [cm-a] in the response. *)
Theorem deleted_names_still_reported :
  (forall c h fo l opts,
     final_response c h fo l opts =
     final_response c h fo l (mkOpts false (NoInteractive opts) (Verbose opts))) /\
  let c := demo_cluster [cm_a] in
  let h := demo_helpers ["default"] in
  let opts := mkOpts true true false in
  let scoped := mkIncludeExcludeLists ["default"] [] in
  DeleteResourceWithFinalizer h ["cm-a"] "default" "configmaps" true = ([], None) /\
  DeleteResource h ["cm-a"] "default" "configmaps" true = ([], None) /\
  In (EDeleteWithFinalizer "default" "configmaps" ["cm-a"] true)
     (fst (collect c h demo_filter all_namespaces opts)) /\
  final_response c h demo_filter all_namespaces opts =
  Some [("default", [("configmaps", ["cm-a"])])] /\
  In (EDelete "default" "configmaps" ["cm-a"] true) (fst (collect c h demo_filter scoped opts)) /\
  final_response c h demo_filter scoped opts = Some [("default", [("configmaps", ["cm-a"])])].
Proof.
  split; [exact final_response_without_delete|].
  vm_compute. intuition.
Qed.

(** ** Instances of the theorems with hypotheses *)

Lemma global_scoped_scans_agree_witness :
  global_pending (demo_cluster [cm_a; sec_a]) (demo_helpers ["default"]) demo_filter
    ["default"] "default" "configmaps" "cm-a" /\
  scoped_pending (demo_cluster [cm_a; sec_a]) (demo_helpers ["default"]) demo_filter
    ["default"] "default" "configmaps" "cm-a".
Proof.
  assert (Hl : forall gvr ns, ns <> NamespaceAll ->
            DynamicList (demo_cluster [cm_a; sec_a]) gvr ns =
            option_map (filter (fun item => String.eqb (GetNamespace item) ns))
                       (DynamicList (demo_cluster [cm_a; sec_a]) gvr NamespaceAll)).
  { intros gvr ns Hne. simpl. unfold list_from_store.
    destruct (String.eqb_spec ns NamespaceAll) as [E|_]; [contradiction|reflexivity]. }
  assert (Hc : forall gvr items item,
            DynamicList (demo_cluster [cm_a; sec_a]) gvr NamespaceAll = Some items ->
            In item items -> In (GetNamespace item) ["default"]).
  { intros gvr items item. simpl. unfold list_from_store, demo_store. simpl.
    destruct (String.eqb (gvr_Resource gvr) "configmaps");
      intros [= <-]; simpl; intros H; intuition (subst; simpl; auto). }
  assert (Hn : ~ In NamespaceAll ["default"]) by (simpl; intuition discriminate).
  assert (E := global_scoped_scans_agree (demo_cluster [cm_a; sec_a]) (demo_helpers ["default"])
                 demo_filter ["default"] Hl Hc Hn "default" "configmaps" "cm-a").
  assert (G : global_pending (demo_cluster [cm_a; sec_a]) (demo_helpers ["default"]) demo_filter
                ["default"] "default" "configmaps" "cm-a") by (vm_compute; auto).
  split; [exact G|exact (proj1 E G)].
Defined.

Lemma kor_used_never_reported_witness :
  global_item (demo_helpers ["default"]) demo_filter configmaps [] cm_used = [] /\
  scoped_item (demo_helpers ["default"]) demo_filter configmaps [] cm_used = [] /\
  GetUnusedfinalizers (demo_cluster [cm_used; cm_a]) (demo_helpers ["default"]) demo_filter
    all_namespaces "table" (mkOpts true true false) =
  GetUnusedfinalizers (without_kor_used (demo_cluster [cm_used; cm_a])) (demo_helpers ["default"])
    demo_filter all_namespaces "table" (mkOpts true true false).
Proof.
  apply (kor_used_never_reported (demo_cluster [cm_used; cm_a]) (demo_helpers ["default"])
           demo_filter all_namespaces "table" (mkOpts true true false) configmaps cm_used [] []).
  reflexivity.
Defined.

Lemma list_failure_skips_type_witness :
  let cg := broken_configmaps_cluster [cm_a; sec_a] in
  let cs := namespace_broken_cluster [cm_a; sec_a] in
  let h := demo_helpers ["default"] in
  let gv := mkSchemaGroupVersion "" "v1" in
  DynamicList cs (WithResource gv "configmaps") NamespaceAll <> None /\
  (snd (global_resources cg h demo_filter "v1" gv ([] ++ configmaps :: [secrets]) ([EDiscovery], [])) =
   snd (global_resources cg h demo_filter "v1" gv ([] ++ [secrets]) ([EDiscovery], [])) /\
   In (EStdout (DListResources "v1"))
      (fst (global_resources cg h demo_filter "v1" gv ([] ++ configmaps :: [secrets]) ([EDiscovery], [])))) /\
  (snd (scoped_resources cs h demo_filter "default" "v1" gv ([] ++ configmaps :: [secrets]) ([EDiscovery], [])) =
   snd (scoped_resources cs h demo_filter "default" "v1" gv ([] ++ [secrets]) ([EDiscovery], [])) /\
   In (EStdout (DListResources "v1"))
      (fst (scoped_resources cs h demo_filter "default" "v1" gv ([] ++ configmaps :: [secrets]) ([EDiscovery], [])))).
Proof.
  intros cg cs h gv.
  split; [discriminate|split].
  - apply (proj1 (list_failure_skips_type cg h demo_filter "default" "v1" gv [] configmaps [secrets]
                    ([EDiscovery], []) ([EDiscovery], []) eq_refl ltac:(simpl; auto))).
    reflexivity.
  - apply (proj2 (list_failure_skips_type cs h demo_filter "default" "v1" gv [] configmaps [secrets]
                    ([EDiscovery], []) ([EDiscovery], []) eq_refl ltac:(simpl; auto))).
    reflexivity.
Defined.

Lemma global_mode_drops_unlisted_namespaces_witness :
  let c := demo_cluster [cm_a; cm_b] in
  let h := demo_helpers ["default"] in
  let opts := mkOpts true true false in
  let log := fst (GetUnusedfinalizers c h demo_filter all_namespaces "table" opts) in
  (forall ns ty names b, In (EDeleteWithFinalizer ns ty names b) log -> In ns ["default"]) /\
  (forall ns ty names b, ~ In (EDelete ns ty names b) log) /\
  match final_response c h demo_filter all_namespaces opts with
  | Some response => forall ns, In ns (keys response) -> In ns ["default"]
  | None => True
  end.
Proof.
  intros c h opts log.
  exact (global_mode_drops_unlisted_namespaces c h demo_filter all_namespaces "table" opts
           eq_refl eq_refl).
Defined.

(** ** The first version of the file against the current one *)

Lemma legacy_item_step h fo r acc item :
  Legacy.item_step h fo r acc item = scoped_item h fo r acc item.
Proof.
  unfold Legacy.item_step, scoped_item, CheckFinalizers.
  destruct (_ && _); reflexivity.
Qed.

Lemma legacy_resources c h fo namespace gvs gv rs st :
  Legacy.resources c h fo namespace gvs gv rs st = scoped_resources c h fo namespace gvs gv rs st.
Proof.
  revert st. induction rs as [|r rs IH]; intros [log acc]; simpl; auto.
  destruct (Namespaced r && Contains (Verbs r) "list"); [|apply IH].
  destruct (DynamicList c (WithResource gv (Name r)) namespace); rewrite IH; [|reflexivity].
  f_equal. f_equal. generalize acc.
  induction l as [|item items IHi]; intros a; simpl; [reflexivity|].
  rewrite legacy_item_step. apply IHi.
Qed.

Lemma legacy_groups c h fo namespace rts st :
  Legacy.groups c h fo namespace rts st = scoped_groups c h fo namespace rts st.
Proof.
  revert st. induction rts as [|gl rts IH]; intros st; simpl; auto.
  destruct (ParseGroupVersion (GroupVersion gl)); [|reflexivity].
  rewrite legacy_resources. apply IH.
Qed.

(** The scan of one namespace of the first version (lines 18-65) has the
    same effects and result as [getNamespacedResourcesWithFinalizersPendingDeletion]. *)
Theorem legacy_scan_is_namespaced_scan (c : Cluster) (h : Helpers) (fo : FilterOptions)
    (namespace : string) :
  Legacy.getResourcesWithFinalizersPendingDeletion c h fo namespace =
  getNamespacedResourcesWithFinalizersPendingDeletion c h fo namespace.
Proof.
  unfold Legacy.getResourcesWithFinalizersPendingDeletion,
    getNamespacedResourcesWithFinalizersPendingDeletion.
  destruct (ServerPreferredResources c) as [rts|]; [|reflexivity].
  apply legacy_groups.
Qed.

Lemma legacy_namespace_loop c h fo opts namespaces st :
  Legacy.namespace_loop c h fo opts namespaces st = scoped_report c h fo opts namespaces st.
Proof.
  revert st. induction namespaces as [|ns nss IH]; intros [[log b] resp]; simpl; auto.
  assert (E : Legacy.getResourcesWithFinalizersPendingDeletion c h fo ns =
              getNamespacedResourcesWithFinalizersPendingDeletion c h fo ns).
  { unfold Legacy.getResourcesWithFinalizersPendingDeletion,
      getNamespacedResourcesWithFinalizersPendingDeletion.
    destruct (ServerPreferredResources c) as [rts|]; [|reflexivity].
    apply legacy_groups. }
  rewrite E.
  destruct (getNamespacedResourcesWithFinalizersPendingDeletion c h fo ns) as [ev [code|m [e|]]];
    auto.
Qed.

(** When an include or exclude list is given, the [GetUnusedfinalizers]
    of the first version (lines 67-103) and the current one (lines
    232-290) have the same effects and the same result. *)
Theorem legacy_GetUnusedfinalizers_scoped (c : Cluster) (h : Helpers) (fo : FilterOptions)
    (l : IncludeExcludeLists) (outputFormat : string) (opts : Opts)
    (Hscoped : is_global_mode l = false) :
  Legacy.GetUnusedfinalizers c h fo l outputFormat opts =
  GetUnusedfinalizers c h fo l outputFormat opts.
Proof.
  unfold Legacy.GetUnusedfinalizers, GetUnusedfinalizers, collect.
  fold (is_global_mode l). rewrite Hscoped, legacy_namespace_loop. reflexivity.
Qed.

(** ** The name lists of the scans *)

Lemma scoped_item_index h fo r acc item ty :
  index [] ty (scoped_item h fo r acc item) =
  index [] ty acc ++ (if selected h fo item && String.eqb (Name r) ty then [GetName item] else []).
Proof.
  unfold scoped_item, selected.
  destruct (String.eqb (index "" "kor/used" (GetLabels item)) "true"); simpl;
    [now rewrite app_nil_r|].
  destruct (fst (HasExcludedLabel h (GetLabels item) (ExcludeLabels fo))); simpl;
    [now rewrite app_nil_r|].
  destruct (fst (HasIncludedAge h (GetCreationTimestamp item) fo)); simpl;
    [|now rewrite app_nil_r].
  destruct (CheckFinalizers (GetFinalizers item) (GetDeletionTimestamp item)); simpl;
    [|now rewrite app_nil_r].
  rewrite index_insert, String.eqb_sym.
  destruct (String.eqb_spec (Name r) ty) as [->|]; [reflexivity|now rewrite app_nil_r].
Qed.

Lemma scoped_fold_index h fo r items acc ty :
  index [] ty (fold_left (scoped_item h fo r) items acc) =
  index [] ty acc ++ (if String.eqb (Name r) ty then map GetName (filter (selected h fo) items) else []).
Proof.
  revert acc. induction items as [|item items IH]; intros acc; simpl.
  - destruct (String.eqb (Name r) ty); symmetry; apply app_nil_r.
  - rewrite IH, scoped_item_index, <- app_assoc. f_equal.
    destruct (String.eqb (Name r) ty), (selected h fo item); reflexivity.
Qed.

Lemma scoped_resources_index c h fo namespace gvs gv rs log acc ty :
  index [] ty (snd (scoped_resources c h fo namespace gvs gv rs (log, acc))) =
  index [] ty acc ++ flat_map (scoped_type_names c h fo namespace gv ty) rs.
Proof.
  revert log acc. induction rs as [|r rs IH]; intros log acc; simpl; [now rewrite app_nil_r|].
  unfold scoped_type_names at 1, listable.
  destruct (Namespaced r && Contains (Verbs r) "list"); simpl; [|apply IH].
  destruct (DynamicList c (WithResource gv (Name r)) namespace); rewrite IH.
  - rewrite scoped_fold_index, app_assoc. destruct (String.eqb (Name r) ty); reflexivity.
  - destruct (String.eqb (Name r) ty); reflexivity.
Qed.

Lemma scoped_groups_index c h fo namespace rts log acc ty :
  match snd (scoped_groups c h fo namespace rts (log, acc)) with
  | Return m _ => index [] ty m = index [] ty acc ++ scoped_names c h fo namespace rts ty
  | Exit _ => False
  end.
Proof.
  revert log acc. induction rts as [|gl rts IH]; intros log acc; simpl; [now rewrite app_nil_r|].
  unfold scoped_names. simpl.
  destruct (ParseGroupVersion (GroupVersion gl)) as [gv|]; simpl; [|now rewrite app_nil_r].
  pose proof (scoped_resources_index c h fo namespace (GroupVersion gl) gv (APIResources gl) log acc ty) as E.
  destruct (scoped_resources c h fo namespace (GroupVersion gl) gv (APIResources gl) (log, acc))
    as [log' acc'].
  specialize (IH log' acc'). unfold scoped_names in IH.
  destruct (snd (scoped_groups c h fo namespace rts (log', acc'))); [exact IH|].
  rewrite IH. simpl in E. rewrite E, app_assoc. reflexivity.
Qed.

Lemma global_item_index h fo r acc item ns ty :
  index [] ty (index [] ns (global_item h fo r acc item)) =
  index [] ty (index [] ns acc) ++
  (if selected h fo item && String.eqb (GetNamespace item) ns && String.eqb (Name r) ty
   then [GetName item] else []).
Proof.
  unfold global_item, selected.
  destruct (String.eqb (index "" "kor/used" (GetLabels item)) "true"); simpl;
    [now rewrite app_nil_r|].
  destruct (fst (HasExcludedLabel h (GetLabels item) (ExcludeLabels fo))); simpl;
    [now rewrite app_nil_r|].
  destruct (fst (HasIncludedAge h (GetCreationTimestamp item) fo)); simpl;
    [|now rewrite app_nil_r].
  destruct (CheckFinalizers (GetFinalizers item) (GetDeletionTimestamp item)); simpl;
    [|now rewrite app_nil_r].
  rewrite index_insert, (String.eqb_sym (GetNamespace item) ns).
  destruct (String.eqb_spec ns (GetNamespace item)) as [<-|]; simpl.
  - rewrite index_insert, index_make_if_nil, String.eqb_sym.
    destruct (String.eqb_spec (Name r) ty) as [->|]; [reflexivity|now rewrite app_nil_r].
  - rewrite index_make_if_nil. now rewrite app_nil_r.
Qed.

Lemma global_fold_index h fo r items acc ns ty :
  index [] ty (index [] ns (fold_left (global_item h fo r) items acc)) =
  index [] ty (index [] ns acc) ++
  (if String.eqb (Name r) ty
   then map GetName (filter (fun item => selected h fo item && String.eqb (GetNamespace item) ns) items)
   else []).
Proof.
  revert acc. induction items as [|item items IH]; intros acc; simpl.
  - destruct (String.eqb (Name r) ty); symmetry; apply app_nil_r.
  - rewrite IH, global_item_index, <- app_assoc. f_equal.
    destruct (String.eqb (Name r) ty), (selected h fo item && String.eqb (GetNamespace item) ns);
      reflexivity.
Qed.

Lemma global_resources_index c h fo gvs gv rs log acc ns ty :
  index [] ty (index [] ns (snd (global_resources c h fo gvs gv rs (log, acc)))) =
  index [] ty (index [] ns acc) ++ flat_map (global_type_names c h fo gv ns ty) rs.
Proof.
  revert log acc. induction rs as [|r rs IH]; intros log acc; simpl; [now rewrite app_nil_r|].
  unfold global_type_names at 1, listable.
  destruct (Namespaced r && Contains (Verbs r) "list"); simpl; [|apply IH].
  destruct (DynamicList c (WithResource gv (Name r)) NamespaceAll); rewrite IH.
  - rewrite global_fold_index, app_assoc. destruct (String.eqb (Name r) ty); reflexivity.
  - destruct (String.eqb (Name r) ty); reflexivity.
Qed.

Lemma global_groups_index c h fo rts log acc ns ty :
  match snd (global_groups c h fo rts (log, acc)) with
  | Return m _ => index [] ty (index [] ns m) = index [] ty (index [] ns acc) ++ global_names c h fo rts ns ty
  | Exit _ => False
  end.
Proof.
  revert log acc. induction rts as [|gl rts IH]; intros log acc; simpl; [now rewrite app_nil_r|].
  unfold global_names. simpl.
  destruct (ParseGroupVersion (GroupVersion gl)) as [gv|]; simpl; [|now rewrite app_nil_r].
  pose proof (global_resources_index c h fo (GroupVersion gl) gv (APIResources gl) log acc ns ty) as E.
  destruct (global_resources c h fo (GroupVersion gl) gv (APIResources gl) (log, acc))
    as [log' acc'].
  specialize (IH log' acc'). unfold global_names in IH.
  destruct (snd (global_groups c h fo rts (log', acc'))); [exact IH|].
  rewrite IH. simpl in E. rewrite E, app_assoc. reflexivity.
Qed.

(** The scoped scan's name list for a resource type [ty] is, in order,
    the names of the selected objects (kor/used unset, not excluded by
    label, of included age, pending deletion) listed in [namespace] for
    every listable resource type named [ty], over every group of the
    catalog up to the first group/version string that does not parse; a
    name listed under two groups with the same resource name appears twice. *)
Theorem scoped_scan_names (c : Cluster) (h : Helpers) (fo : FilterOptions) (namespace : string) :
  match ServerPreferredResources c with
  | Some resourceTypes =>
      match snd (getNamespacedResourcesWithFinalizersPendingDeletion c h fo namespace) with
      | Return m _ => forall ty, index [] ty m = scoped_names c h fo namespace resourceTypes ty
      | Exit _ => False
      end
  | None => True
  end.
Proof.
  unfold getNamespacedResourcesWithFinalizersPendingDeletion.
  destruct (ServerPreferredResources c) as [rts|]; [|exact I].
  destruct (snd (scoped_groups c h fo namespace rts ([EDiscovery], []))) eqn:E.
  - pose proof (scoped_groups_index c h fo namespace rts [EDiscovery] [] ""%string) as H.
    unfold TypeIndex in E, H. rewrite E in H. exact H.
  - intros ty. pose proof (scoped_groups_index c h fo namespace rts [EDiscovery] [] ty) as H.
    unfold TypeIndex in E, H. rewrite E in H. exact H.
Qed.

(** The global scan's name list for namespace [ns] and resource type [ty]
    is, in order, the names of the selected objects of namespace [ns] in
    the all-namespaces listing of every listable resource type named
    [ty], over every group up to the first one that does not parse. *)
Theorem global_scan_names (c : Cluster) (h : Helpers) (fo : FilterOptions)
    (namespaces : list string) :
  match ServerPreferredResources c with
  | Some resourceTypes =>
      match snd (getResourcesWithFinalizersPendingDeletion c h fo namespaces) with
      | Return m _ => forall ns ty, index [] ty (index [] ns m) = global_names c h fo resourceTypes ns ty
      | Exit _ => False
      end
  | None => True
  end.
Proof.
  unfold getResourcesWithFinalizersPendingDeletion.
  destruct (ServerPreferredResources c) as [rts|]; [|exact I].
  destruct (snd (global_groups c h fo rts ([EDiscovery], []))) eqn:E.
  - pose proof (global_groups_index c h fo rts [EDiscovery] [] ""%string ""%string) as H.
    unfold NsIndex, TypeIndex in E, H. rewrite E in H. exact H.
  - intros ns ty. pose proof (global_groups_index c h fo rts [EDiscovery] [] ns ty) as H.
    unfold NsIndex, TypeIndex in E, H. rewrite E in H. exact H.
Qed.

Lemma filter_selected_namespace h fo ns items :
  filter (selected h fo) (filter (fun item => String.eqb (GetNamespace item) ns) items) =
  filter (fun item => selected h fo item && String.eqb (GetNamespace item) ns) items.
Proof.
  induction items as [|item items IH]; simpl; auto.
  destruct (String.eqb (GetNamespace item) ns) eqn:E; simpl;
    destruct (selected h fo item); simpl; rewrite ?E, ?IH; auto.
Qed.

Lemma type_names_agree c h fo gv ns ty r :
  DynamicList c (WithResource gv (Name r)) ns =
  option_map (filter (fun item => String.eqb (GetNamespace item) ns))
             (DynamicList c (WithResource gv (Name r)) NamespaceAll) ->
  scoped_type_names c h fo ns gv ty r = global_type_names c h fo gv ns ty r.
Proof.
  intros Hl. unfold scoped_type_names, global_type_names.
  destruct (listable r && String.eqb (Name r) ty); [|reflexivity].
  rewrite Hl. destruct (DynamicList c (WithResource gv (Name r)) NamespaceAll); simpl; auto.
  now rewrite filter_selected_namespace.
Qed.

(** When the API server answers a namespaced list call with the
    all-namespaces answer restricted to that namespace, the global scan's
    name list for a (named) namespace and a resource type is the scoped
    scan's list for that type in that namespace, order and repetitions
    included; both scans exit together. *)
Theorem global_scoped_same_name_lists (c : Cluster) (h : Helpers) (fo : FilterOptions)
    (namespaces : list string) (ns : string)
    (Hlist : forall gvr, DynamicList c gvr ns =
       option_map (filter (fun item => String.eqb (GetNamespace item) ns))
                  (DynamicList c gvr NamespaceAll)) :
  match snd (getResourcesWithFinalizersPendingDeletion c h fo namespaces),
        snd (getNamespacedResourcesWithFinalizersPendingDeletion c h fo ns) with
  | Return mg _, Return ms _ => forall ty, index [] ty (index [] ns mg) = index [] ty ms
  | Exit _, Exit _ => True
  | _, _ => False
  end.
Proof.
  unfold getResourcesWithFinalizersPendingDeletion,
    getNamespacedResourcesWithFinalizersPendingDeletion.
  destruct (ServerPreferredResources c) as [rts|]; [|exact I].
  destruct (snd (global_groups c h fo rts ([EDiscovery], []))) as [code|mg eg] eqn:EG.
  { pose proof (global_groups_index c h fo rts [EDiscovery] [] ns ""%string) as HG.
    unfold NsIndex, TypeIndex in EG, HG. rewrite EG in HG. destruct HG. }
  destruct (snd (scoped_groups c h fo ns rts ([EDiscovery], []))) as [code|ms es] eqn:ES.
  { pose proof (scoped_groups_index c h fo ns rts [EDiscovery] [] ""%string) as HS.
    unfold TypeIndex in ES, HS. rewrite ES in HS. destruct HS. }
  intros ty.
  pose proof (global_groups_index c h fo rts [EDiscovery] [] ns ty) as HG.
  pose proof (scoped_groups_index c h fo ns rts [EDiscovery] [] ty) as HS.
  unfold NsIndex, TypeIndex in EG, HG, ES, HS. rewrite EG in HG. rewrite ES in HS.
  rewrite HG, HS. simpl. unfold global_names, scoped_names.
  apply flat_map_ext. intros p. apply flat_map_ext. intros r.
  symmetry. apply type_names_agree, Hlist.
Qed.

(** ** The delete calls *)

Lemma no_delete_not_in e l :
  Forall (fun e => is_delete e = false) l -> is_delete e = true -> ~ In e l.
Proof.
  rewrite Forall_forall. intros F D Hin. rewrite (F e Hin) in D. discriminate.
Qed.

Lemma scan_events_no_delete ns ev :
  Forall (scan_event ns) ev -> Forall (fun e => is_delete e = false) ev.
Proof.
  apply Forall_impl. intros e. destruct e; simpl; tauto.
Qed.

Lemma delete_with_finalizer_loop_dry h opts namespace data log :
  DeleteFlag opts = false -> delete_with_finalizer_loop h opts namespace data log = log.
Proof.
  intros Hd. revert log. induction data as [|[ty names] data IH]; intros log; simpl; auto.
  rewrite Hd. apply IH.
Qed.

Lemma delete_loop_dry h opts namespace data log :
  DeleteFlag opts = false -> delete_loop h opts namespace data log = log.
Proof.
  intros Hd. revert log. induction data as [|[ty names] data IH]; intros log; simpl; auto.
  rewrite Hd. apply IH.
Qed.

Lemma global_report_dry h opts namespaces diffs log b r :
  DeleteFlag opts = false -> fst (fst (global_report h opts namespaces diffs (log, b, r))) = log.
Proof.
  intros Hd. revert log b r.
  induction diffs as [|[ns data] diffs IH]; intros log b r; simpl; auto.
  destruct (Contains namespaces ns); rewrite IH; auto. apply delete_with_finalizer_loop_dry, Hd.
Qed.

Lemma scoped_report_dry c h fo opts namespaces log b r :
  DeleteFlag opts = false ->
  exists ev, fst (scoped_report c h fo opts namespaces (log, b, r)) = log ++ ev /\
             Forall (fun e => is_delete e = false) ev.
Proof.
  intros Hd. revert log b r.
  induction namespaces as [|ns nss IH]; intros log b r; simpl.
  - exists []. split; [now rewrite app_nil_r|constructor].
  - destruct (scoped_scan_events c h fo ns) as [evs [Es Fs]].
    apply scan_events_no_delete in Fs.
    destruct (getNamespacedResourcesWithFinalizersPendingDeletion c h fo ns) as [ev0 [code|m [e|]]];
      simpl in Es; subst ev0.
    + exists (EDiscovery :: evs). split; [reflexivity|constructor; auto].
    + destruct (IH (log ++ (EDiscovery :: evs) ++ [EStderr (DProcessNamespace ns)]) b r)
        as [ev [E F]].
      rewrite E. exists ((EDiscovery :: evs) ++ [EStderr (DProcessNamespace ns)] ++ ev).
      split; [now rewrite <- !app_assoc|].
      repeat (apply Forall_app; split); auto; repeat constructor.
    + rewrite delete_loop_dry by exact Hd.
      match goal with
      | |- context [scoped_report _ _ _ _ nss (?l, ?b', ?r')] =>
          destruct (IH l b' r') as [ev [E F]]; unfold NsIndex, TypeIndex in *; rewrite E
      end.
      exists ((EDiscovery :: evs) ++ ev). split; [now rewrite <- app_assoc|].
      apply Forall_app; split; auto; constructor; auto.
Qed.

(** A run of [GetUnusedfinalizers] with the delete flag off makes no
    delete call in either mode: neither [DeleteResource] nor
    [DeleteResourceWithFinalizer] is called. *)
Theorem dry_run_never_deletes (c : Cluster) (h : Helpers) (fo : FilterOptions)
    (l : IncludeExcludeLists) (outputFormat : string) (opts : Opts)
    (Hdry : DeleteFlag opts = false) :
  Forall (fun e => is_delete e = false) (fst (GetUnusedfinalizers c h fo l outputFormat opts)).
Proof.
  destruct (GetUnusedfinalizers_log c h fo l outputFormat opts) as [evf [Hl [Ff _]]].
  destruct (formatter_events evf Ff) as [_ Fev].
  rewrite Hl. apply Forall_app. split; [|apply Fev; reflexivity].
  unfold collect. destruct (_ && _).
  - destruct (global_scan_events c h fo (SetNamespaceList h l)) as [evs [Es Fs]].
    apply scan_events_no_delete in Fs.
    destruct (getResourcesWithFinalizersPendingDeletion c h fo (SetNamespaceList h l))
      as [ev0 [code|m err]]; simpl in Es; subst ev0; [constructor; auto|].
    set (log := match err with
                | Some _ => (EDiscovery :: evs) ++ [EStderr DProcessResources]
                | None => EDiscovery :: evs
                end).
    assert (F : Forall (fun e => is_delete e = false) log).
    { unfold log. destruct err; [apply Forall_app; split; repeat constructor; auto|constructor; auto]. }
    pose proof (global_report_dry h opts (SetNamespaceList h l) m log ""%string [] Hdry) as G.
    revert G. unfold NsIndex, TypeIndex in *.
    match goal with
    | |- context [global_report ?a ?b ?n ?d ?st] => destruct (global_report a b n d st) as [[lg b'] rsp]
    end.
    simpl. intros ->. exact F.
  - destruct (scoped_report_dry c h fo opts (SetNamespaceList h l) [] ""%string [] Hdry) as [ev [E F]].
    unfold NsIndex, TypeIndex in *. rewrite E. exact F.
Qed.

Lemma delete_with_finalizer_loop_calls h opts namespace data log :
  DeleteFlag opts = true ->
  exists ev, delete_with_finalizer_loop h opts namespace data log = log ++ ev /\
    (forall ns ty names b, In (EDeleteWithFinalizer ns ty names b) ev <->
       ns = namespace /\ b = NoInteractive opts /\ In (ty, names) data) /\
    (forall ns ty names b, ~ In (EDelete ns ty names b) ev).
Proof.
  intros Hd. revert log. induction data as [|[ty names] data IH]; intros log; simpl.
  - exists []. rewrite app_nil_r. simpl. intuition.
  - rewrite Hd.
    destruct (DeleteResourceWithFinalizer h names namespace ty (NoInteractive opts)) as [rest' err].
    cbv beta iota zeta.
    match goal with
    | |- context [delete_with_finalizer_loop _ _ _ _ (log ++ ?x)] =>
        destruct (IH (log ++ x)) as [ev [E [H1 H2]]]; rewrite E;
        assert (Hx : exists errs, x = EDeleteWithFinalizer namespace ty names (NoInteractive opts) :: errs /\
                       forall e, In e errs -> is_delete e = false)
    end.
    { destruct err; eexists; (split; [reflexivity|]); simpl; intros e H;
        [destruct H as [<-|[]]|destruct H]; reflexivity. }
    destruct Hx as [errs [Ex Herrs]]. rewrite Ex. exists (EDeleteWithFinalizer namespace ty names (NoInteractive opts) :: errs ++ ev).
    split; [now rewrite <- app_assoc|split].
    + intros ns ty' names' b. simpl. rewrite in_app_iff, H1. split.
      * intros [Heq|[Herr|(-> & -> & Hin)]].
        -- injection Heq as <- <- <- <-. auto.
        -- apply Herrs in Herr. discriminate.
        -- auto.
      * intros (-> & -> & [Heq|Hin]).
        -- injection Heq as <- <-. now left.
        -- right. right. auto.
    + intros ns ty' names' b. simpl. rewrite in_app_iff.
      intros [Heq|[Herr|Hin]]; [discriminate|apply Herrs in Herr; discriminate|exact (H2 _ _ _ _ Hin)].
Qed.

Lemma delete_loop_calls h opts namespace data log :
  DeleteFlag opts = true ->
  exists ev, delete_loop h opts namespace data log = log ++ ev /\
    (forall ns ty names b, In (EDelete ns ty names b) ev <->
       ns = namespace /\ b = NoInteractive opts /\ In (ty, names) data) /\
    (forall ns ty names b, ~ In (EDeleteWithFinalizer ns ty names b) ev).
Proof.
  intros Hd. revert log. induction data as [|[ty names] data IH]; intros log; simpl.
  - exists []. rewrite app_nil_r. simpl. intuition.
  - rewrite Hd.
    destruct (DeleteResource h names namespace ty (NoInteractive opts)) as [rest' err].
    cbv beta iota zeta.
    match goal with
    | |- context [delete_loop _ _ _ _ (log ++ ?x)] =>
        destruct (IH (log ++ x)) as [ev [E [H1 H2]]]; rewrite E;
        assert (Hx : exists errs, x = EDelete namespace ty names (NoInteractive opts) :: errs /\
                       forall e, In e errs -> is_delete e = false)
    end.
    { destruct err; eexists; (split; [reflexivity|]); simpl; intros e H;
        [destruct H as [<-|[]]|destruct H]; reflexivity. }
    destruct Hx as [errs [Ex Herrs]]. rewrite Ex. exists (EDelete namespace ty names (NoInteractive opts) :: errs ++ ev).
    split; [now rewrite <- app_assoc|split].
    + intros ns ty' names' b. simpl. rewrite in_app_iff, H1. split.
      * intros [Heq|[Herr|(-> & -> & Hin)]].
        -- injection Heq as <- <- <- <-. auto.
        -- apply Herrs in Herr. discriminate.
        -- auto.
      * intros (-> & -> & [Heq|Hin]).
        -- injection Heq as <- <-. now left.
        -- right. right. auto.
    + intros ns ty' names' b. simpl. rewrite in_app_iff.
      intros [Heq|[Herr|Hin]]; [discriminate|apply Herrs in Herr; discriminate|exact (H2 _ _ _ _ Hin)].
Qed.

Lemma global_report_calls h opts namespaces diffs log b r :
  DeleteFlag opts = true ->
  exists ev, fst (fst (global_report h opts namespaces diffs (log, b, r))) = log ++ ev /\
    forall ns ty names bb, In (EDeleteWithFinalizer ns ty names bb) ev <->
      bb = NoInteractive opts /\ In ns namespaces /\
      exists data, In (ns, data) diffs /\ In (ty, names) data.
Proof.
  intros Hd. revert log b r.
  induction diffs as [|[ns0 data0] diffs IH]; intros log b r; simpl.
  - exists []. rewrite app_nil_r. split; [reflexivity|]. intros. simpl.
    split; [tauto|intros (_ & _ & data & [] & _)].
  - destruct (Contains namespaces ns0) eqn:C.
    + apply Contains_In in C.
      destruct (delete_with_finalizer_loop_calls h opts ns0 data0 log Hd) as [ev1 [E1 [H1 _]]].
      rewrite E1.
      match goal with
      | |- context [global_report _ _ _ diffs (?l, ?b', ?r')] =>
          destruct (IH l b' r') as [ev2 [E2 H2]]; unfold NsIndex, TypeIndex in *; rewrite E2
      end.
      exists (ev1 ++ ev2). split; [now rewrite app_assoc|].
      intros ns ty names bb. rewrite in_app_iff, H1, H2. split.
      * intros [(-> & -> & Hin)|(-> & Hn & data & Hdata & Hin)].
        -- split; [reflexivity|split; [exact C|]]. exists data0. split; [now left|exact Hin].
        -- split; [reflexivity|split; [exact Hn|]]. exists data. split; [now right|exact Hin].
      * intros (-> & Hn & data & [Heq|Hdata] & Hin).
        -- injection Heq as <- <-. left. auto.
        -- right. split; [reflexivity|split; [exact Hn|]]. exists data. auto.
    + apply Contains_false in C.
      destruct (IH log b r) as [ev2 [E2 H2]]. exists ev2. split; [exact E2|].
      intros ns ty names bb. rewrite H2. split.
      * intros (-> & Hn & data & Hdata & Hin). split; [reflexivity|split; [exact Hn|]].
        exists data. split; [now right|exact Hin].
      * intros (-> & Hn & data & [Heq|Hdata] & Hin).
        -- injection Heq as <- <-. contradiction.
        -- split; [reflexivity|split; [exact Hn|]]. exists data. auto.
Qed.

Lemma scoped_report_calls c h fo opts namespaces (st : list Event * string * NsIndex) :
  DeleteFlag opts = true ->
  exists ev, fst (scoped_report c h fo opts namespaces st) = fst (fst st) ++ ev /\
    match snd (scoped_report c h fo opts namespaces st) with
    | Return _ _ =>
        forall ns ty names bb, In (EDelete ns ty names bb) ev <->
          bb = NoInteractive opts /\ In ns namespaces /\
          exists m, snd (getNamespacedResourcesWithFinalizersPendingDeletion c h fo ns) = Return m None /\
                    In (ty, names) m
    | Exit _ => True
    end.
Proof.
  intros Hd. revert st.
  induction namespaces as [|ns0 nss IH]; intros [[log b] r]; simpl.
  - exists []. rewrite app_nil_r. split; [reflexivity|]. intros. simpl.
    split; [tauto|intros (_ & [] & _)].
  - destruct (scoped_scan_events c h fo ns0) as [evs [Es Fs]].
    apply scan_events_no_delete in Fs.
    assert (Hs : forall ns ty names bb, ~ In (EDelete ns ty names bb) (EDiscovery :: evs))
      by (intros; apply no_delete_not_in; [constructor; auto|reflexivity]).
    destruct (getNamespacedResourcesWithFinalizersPendingDeletion c h fo ns0) as [ev0 r0] eqn:S.
    simpl in Es. subst ev0.
    destruct r0 as [code|m [e|]].
    + exists (EDiscovery :: evs). split; reflexivity.
    + match goal with
      | |- context [scoped_report _ _ _ _ nss ?st] =>
          destruct (IH st) as [ev [E H]]; cbn [fst] in E; rewrite E;
          exists ((EDiscovery :: evs) ++ [EStderr (DProcessNamespace ns0)] ++ ev);
          split; [now rewrite <- !app_assoc|];
          destruct (snd (scoped_report c h fo opts nss st)); [exact I|]
      end.
      intros ns ty names bb. rewrite !in_app_iff, H. split.
      * intros [Hin|[[Heq|[]]|(-> & Hn & Hm)]]; [now apply Hs in Hin|discriminate|].
        split; [reflexivity|split; [now right|exact Hm]].
      * intros (-> & [<-|Hn] & m' & Sm & Hin).
        -- rewrite S in Sm. discriminate.
        -- right. right. split; [reflexivity|split; [exact Hn|]]. exists m'. auto.
    + destruct (delete_loop_calls h opts ns0 m (log ++ EDiscovery :: evs) Hd) as [evd [Ed [Hd1 _]]].
      match goal with
      | |- context [scoped_report _ _ _ _ nss ?st] =>
          destruct (IH st) as [ev [E H]]; cbn [fst] in E; rewrite E;
          destruct (snd (scoped_report c h fo opts nss st)); rewrite Ed;
          exists ((EDiscovery :: evs) ++ evd ++ ev); (split; [now rewrite <- !app_assoc|]); [exact I|]
      end.
      intros ns ty names bb. rewrite !in_app_iff, Hd1, H. split.
      * intros [Hin|[(-> & -> & Hin)|(-> & Hn & Hm)]]; [now apply Hs in Hin| |].
        -- split; [reflexivity|split; [now left|]]. exists m. rewrite S. auto.
        -- split; [reflexivity|split; [now right|exact Hm]].
      * intros (-> & [<-|Hn] & m' & Sm & Hin).
        -- rewrite S in Sm. simpl in Sm. injection Sm as <-. right. left. auto.
        -- right. right. split; [reflexivity|split; [exact Hn|]]. exists m'. auto.
Qed.

(** In global mode with the delete flag set, [DeleteResourceWithFinalizer]
    is called on [(ns, ty, names)], with the [NoInteractive] option,
    exactly for the (type, names) groups of the global scan's result
    whose namespace [ns] is a resolved namespace. *)
Theorem global_delete_calls (c : Cluster) (h : Helpers) (fo : FilterOptions)
    (l : IncludeExcludeLists) (outputFormat : string) (opts : Opts)
    (Hglobal : is_global_mode l = true) (Hdelete : DeleteFlag opts = true) :
  match snd (getResourcesWithFinalizersPendingDeletion c h fo (SetNamespaceList h l)) with
  | Return m _ =>
      forall ns ty names b,
        In (EDeleteWithFinalizer ns ty names b) (fst (GetUnusedfinalizers c h fo l outputFormat opts)) <->
        b = NoInteractive opts /\ In ns (SetNamespaceList h l) /\
        exists data, In (ns, data) m /\ In (ty, names) data
  | Exit _ => True
  end.
Proof.
  destruct (GetUnusedfinalizers_log c h fo l outputFormat opts) as [evf [Hl [Ff _]]].
  destruct (formatter_events evf Ff) as [_ Fev].
  assert (Hf : forall e, is_delete e = true -> ~ In e evf)
    by (intros e D; apply no_delete_not_in; [apply Fev; reflexivity|exact D]).
  rewrite Hl. unfold collect. fold (is_global_mode l). rewrite Hglobal.
  destruct (global_scan_events c h fo (SetNamespaceList h l)) as [evs [Es Fs]].
  apply scan_events_no_delete in Fs.
  destruct (getResourcesWithFinalizersPendingDeletion c h fo (SetNamespaceList h l))
    as [ev0 [code|m err]]; simpl in Es; subst ev0; [exact I|].
  set (log := match err with
              | Some _ => (EDiscovery :: evs) ++ [EStderr DProcessResources]
              | None => EDiscovery :: evs
              end).
  assert (F : Forall (fun e => is_delete e = false) log).
  { unfold log. destruct err; [apply Forall_app; split; repeat constructor; auto|constructor; auto]. }
  destruct (global_report_calls h opts (SetNamespaceList h l) m log ""%string [] Hdelete)
    as [ev [E H]].
  revert E. unfold NsIndex, TypeIndex in *.
  match goal with
  | |- context [global_report ?a ?b ?n ?d ?st] => destruct (global_report a b n d st) as [[lg b'] rsp]
  end.
  simpl. intros ->. intros ns ty names bb.
  rewrite <- app_assoc, !in_app_iff, <- H.
  split; [|tauto].
  intros [Hin|[Hin|Hin]]; [|exact Hin|];
    [apply no_delete_not_in in Hin; [destruct Hin|exact F|reflexivity]|now apply Hf in Hin].
Qed.

(** In scoped mode with the delete flag set, a run that does not exit
    calls [DeleteResource] on [(ns, ty, names)], with the [NoInteractive]
    option, exactly when [ns] is a resolved namespace whose scan returned
    without error and [(ty, names)] is a group of that scan's result. *)
Theorem scoped_delete_calls (c : Cluster) (h : Helpers) (fo : FilterOptions)
    (l : IncludeExcludeLists) (outputFormat : string) (opts : Opts)
    (Hscoped : is_global_mode l = false) (Hdelete : DeleteFlag opts = true) :
  match snd (GetUnusedfinalizers c h fo l outputFormat opts) with
  | Return _ _ =>
      forall ns ty names b,
        In (EDelete ns ty names b) (fst (GetUnusedfinalizers c h fo l outputFormat opts)) <->
        b = NoInteractive opts /\ In ns (SetNamespaceList h l) /\
        exists m, snd (getNamespacedResourcesWithFinalizersPendingDeletion c h fo ns) = Return m None /\
                  In (ty, names) m
  | Exit _ => True
  end.
Proof.
  destruct (GetUnusedfinalizers_log c h fo l outputFormat opts) as [evf [Hl [Ff Hs]]].
  destruct (formatter_events evf Ff) as [_ Fev].
  assert (Hf : forall e, is_delete e = true -> ~ In e evf)
    by (intros e D; apply no_delete_not_in; [apply Fev; reflexivity|exact D]).
  destruct (snd (collect c h fo l opts)) as [code|o err] eqn:SC.
  { rewrite Hs. exact I. }
  destruct Hs as (out & e & ->). rewrite Hl.
  unfold collect in SC |- *. fold (is_global_mode l) in SC |- *. rewrite Hscoped in SC |- *.
  match goal with
  | |- context [scoped_report ?c' ?h' ?fo' ?o ?n ?st] =>
      destruct (scoped_report_calls c' h' fo' o n st Hdelete) as [ev [E H]];
      rewrite SC in H; rewrite E; simpl
  end.
  intros ns ty names bb. rewrite in_app_iff, <- H. split; [|tauto].
  intros [Hin|Hin]; [exact Hin|now apply Hf in Hin].
Qed.

(** ** A failing global scan *)

(** In global mode, when the all-namespaces scan returns its map together
    with an error (a group/version string that does not parse), the run
    prints the "Failed to process resources" diagnostic and goes on: the
    collected result carries a nil error, and its response holds exactly
    the resolved namespaces that have an entry in the partial map. *)
Theorem global_scan_error_continues (c : Cluster) (h : Helpers) (fo : FilterOptions)
    (l : IncludeExcludeLists) (outputFormat : string) (opts : Opts) (m : NsIndex) (e : string)
    (Hglobal : is_global_mode l = true)
    (Herr : snd (getResourcesWithFinalizersPendingDeletion c h fo (SetNamespaceList h l)) =
            Return m (Some e)) :
  In (EStderr DProcessResources) (fst (GetUnusedfinalizers c h fo l outputFormat opts)) /\
  match snd (collect c h fo l opts) with
  | Return (_, response) err =>
      err = None /\
      forall ns, In ns (keys response) <-> In ns (SetNamespaceList h l) /\ In ns (keys m)
  | Exit _ => False
  end.
Proof.
  destruct (GetUnusedfinalizers_log c h fo l outputFormat opts) as [evf [Hl _]].
  rewrite Hl. unfold collect. fold (is_global_mode l). rewrite Hglobal.
  destruct (getResourcesWithFinalizersPendingDeletion c h fo (SetNamespaceList h l)) as [ev0 r0].
  simpl in Herr. subst r0. cbv beta iota zeta.
  match goal with
  | |- context [global_report ?a ?b ?n ?d ?st] =>
      destruct (global_report a b n d st) as [[lg b'] rsp] eqn:GR
  end.
  apply global_report_spec in GR. destruct GR as [[ev [-> _]] [Hk _]].
  simpl. split.
  - apply in_or_app. left. apply in_or_app. left. apply in_or_app. right. now left.
  - split; [reflexivity|]. intros ns. rewrite Hk. simpl. tauto.
Qed.

(** ** The output buffer of the scoped branch *)

Lemma string_append_nil_r (s : string) : (s ++ "")%string = s.
Proof. induction s as [|a s IH]; simpl; congruence. Qed.

Lemma string_append_assoc (a b d : string) : (a ++ (b ++ d))%string = ((a ++ b) ++ d)%string.
Proof. induction a as [|x a IH]; simpl; congruence. Qed.

Lemma scoped_report_buffer c h fo opts namespaces (st : list Event * string * NsIndex) :
  match snd (scoped_report c h fo opts namespaces st) with
  | Return (b', _) _ => b' = (snd (fst st) ++ render_blocks (map (scoped_block c h fo opts) namespaces))%string
  | Exit _ => True
  end.
Proof.
  revert st. induction namespaces as [|ns0 nss IH]; intros [[log b] r]; simpl.
  - now rewrite string_append_nil_r.
  - unfold scoped_block at 1.
    destruct (getNamespacedResourcesWithFinalizersPendingDeletion c h fo ns0) as [ev0 [code|m [e|]]];
      simpl; [exact I| |].
    + match goal with
      | |- context [scoped_report _ _ _ _ nss ?st] =>
          specialize (IH st); destruct (snd (scoped_report c h fo opts nss st)) as [|[b' r'] e']
      end; [exact I|]. exact IH.
    + match goal with
      | |- context [scoped_report _ _ _ _ nss ?st] =>
          specialize (IH st); destruct (snd (scoped_report c h fo opts nss st)) as [|[b' r'] e']
      end; [exact I|]. simpl in IH. rewrite IH. now rewrite <- !string_append_assoc.
Qed.

(** In scoped mode, when no scan exits and [MarshalIndent] succeeds, the
    formatter receives the concatenation, in the order of the resolved
    namespace list (repetitions included), of one block per namespace:
    [FormatOutputFromMap]'s text and a newline for a namespace whose scan
    returned without error, nothing for a namespace whose scan failed;
    the run returns the formatter's string with a nil error. *)
Theorem scoped_output_buffer (c : Cluster) (h : Helpers) (fo : FilterOptions)
    (l : IncludeExcludeLists) (outputFormat : string) (opts : Opts)
    (Hscoped : is_global_mode l = false) :
  match snd (collect c h fo l opts) with
  | Return (_, response) _ =>
      match snd (MarshalIndent h response) with
      | None =>
          snd (GetUnusedfinalizers c h fo l outputFormat opts) =
          Return (fst (unusedResourceFormatter h outputFormat
                         (render_blocks (map (scoped_block c h fo opts) (SetNamespaceList h l)))
                         opts (fst (MarshalIndent h response)))) None
      | Some _ => True
      end
  | Exit _ => True
  end.
Proof.
  assert (B : match snd (collect c h fo l opts) with
              | Return (b', _) _ => b' = render_blocks (map (scoped_block c h fo opts) (SetNamespaceList h l))
              | Exit _ => True
              end).
  { unfold collect. fold (is_global_mode l). rewrite Hscoped.
    match goal with
    | |- context [scoped_report ?c' ?h' ?fo' ?o ?n ?st] => exact (scoped_report_buffer c' h' fo' o n st)
    end. }
  unfold GetUnusedfinalizers.
  destruct (collect c h fo l opts) as [log [code|[buf resp] err]]; simpl in *; [exact I|].
  subst buf. destruct (MarshalIndent h resp) as [j [e|]]; simpl; [exact I|].
  destruct (unusedResourceFormatter h outputFormat _ opts j) as [out [fe|]]; reflexivity.
Qed.

(** ** Delete failures *)

(** The delete loop of the scoped branch (lines 264-270) prints "Failed
    to delete objects waiting for Finalizers" with the name list [names]
    and namespace [ns] exactly when the delete flag is set, [ns] is the
    loop's namespace and some (type, names) entry of the scan's map got
    an error from [DeleteResource] together with the residual list
    [names]; a failing call does not stop the loop. *)
Theorem delete_loop_errors (h : Helpers) (opts : Opts) (namespace : string) (data : TypeIndex)
    (log : list Event) (names : list string) (ns : string) :
  In (EStderr (DDeleteObjects names ns)) (delete_loop h opts namespace data log) <->
  In (EStderr (DDeleteObjects names ns)) log \/
  (DeleteFlag opts = true /\ ns = namespace /\
   exists ty diff e, In (ty, diff) data /\
     DeleteResource h diff namespace ty (NoInteractive opts) = (names, Some e)).
Proof.
  revert log. induction data as [|[ty diff] rest IH]; intros log; simpl.
  - split; [tauto|intros [H|(_ & _ & ty & diff & e & [] & _)]; exact H].
  - rewrite IH. destruct (DeleteFlag opts) eqn:Hd.
    2:{ split; intros [H|(F & _)]; auto; discriminate. }
    destruct (DeleteResource h diff namespace ty (NoInteractive opts)) as [r' err] eqn:Ed.
    rewrite !in_app_iff. destruct err as [e|]; simpl; split.
    + intros [[H|[H|[H|[]]]]|(T & Hn & ty' & diff' & e' & Hin & E')].
      * now left.
      * discriminate.
      * injection H as <- <-. right. split; [reflexivity|split; [reflexivity|]].
        exists ty, diff, e. split; [now left|exact Ed].
      * right. split; [exact T|split; [exact Hn|]]. exists ty', diff', e'. split; [now right|exact E'].
    + intros [H|(T & Hn & ty' & diff' & e' & [Heq|Hin] & E')].
      * left. left. exact H.
      * injection Heq as <- <-. rewrite Ed in E'. injection E' as <-. subst ns.
        left. right. right. now left.
      * right. split; [exact T|split; [exact Hn|]]. exists ty', diff', e'. auto.
    + intros [[H|[H|[]]]|(T & Hn & ty' & diff' & e' & Hin & E')].
      * now left.
      * discriminate.
      * right. split; [exact T|split; [exact Hn|]]. exists ty', diff', e'. split; [now right|exact E'].
    + intros [H|(T & Hn & ty' & diff' & e' & [Heq|Hin] & E')].
      * left. left. exact H.
      * injection Heq as <- <-. rewrite Ed in E'. discriminate.
      * right. split; [exact T|split; [exact Hn|]]. exists ty', diff', e'. auto.
Qed.

(** The same for the delete loop of the global branch (lines 243-249)
    and [DeleteResourceWithFinalizer]. *)
Theorem delete_with_finalizer_loop_errors (h : Helpers) (opts : Opts) (namespace : string)
    (data : TypeIndex) (log : list Event) (names : list string) (ns : string) :
  In (EStderr (DDeleteObjects names ns)) (delete_with_finalizer_loop h opts namespace data log) <->
  In (EStderr (DDeleteObjects names ns)) log \/
  (DeleteFlag opts = true /\ ns = namespace /\
   exists ty diff e, In (ty, diff) data /\
     DeleteResourceWithFinalizer h diff namespace ty (NoInteractive opts) = (names, Some e)).
Proof.
  revert log. induction data as [|[ty diff] rest IH]; intros log; simpl.
  - split; [tauto|intros [H|(_ & _ & ty & diff & e & [] & _)]; exact H].
  - rewrite IH. destruct (DeleteFlag opts) eqn:Hd.
    2:{ split; intros [H|(F & _)]; auto; discriminate. }
    destruct (DeleteResourceWithFinalizer h diff namespace ty (NoInteractive opts)) as [r' err] eqn:Ed.
    rewrite !in_app_iff. destruct err as [e|]; simpl; split.
    + intros [[H|[H|[H|[]]]]|(T & Hn & ty' & diff' & e' & Hin & E')].
      * now left.
      * discriminate.
      * injection H as <- <-. right. split; [reflexivity|split; [reflexivity|]].
        exists ty, diff, e. split; [now left|exact Ed].
      * right. split; [exact T|split; [exact Hn|]]. exists ty', diff', e'. split; [now right|exact E'].
    + intros [H|(T & Hn & ty' & diff' & e' & [Heq|Hin] & E')].
      * left. left. exact H.
      * injection Heq as <- <-. rewrite Ed in E'. injection E' as <-. subst ns.
        left. right. right. now left.
      * right. split; [exact T|split; [exact Hn|]]. exists ty', diff', e'. auto.
    + intros [[H|[H|[]]]|(T & Hn & ty' & diff' & e' & Hin & E')].
      * now left.
      * discriminate.
      * right. split; [exact T|split; [exact Hn|]]. exists ty', diff', e'. split; [now right|exact E'].
    + intros [H|(T & Hn & ty' & diff' & e' & [Heq|Hin] & E')].
      * left. left. exact H.
      * injection Heq as <- <-. rewrite Ed in E'. discriminate.
      * right. split; [exact T|split; [exact Hn|]]. exists ty', diff', e'. auto.
Qed.

(** ** The output buffer of the global branch *)

Lemma global_report_buffer h opts namespaces diffs (st : list Event * string * NsIndex) :
  snd (fst (global_report h opts namespaces diffs st)) =
  (snd (fst st) ++ render_blocks (map (global_block h opts)
                                   (filter (fun p => Contains namespaces (fst p)) diffs)))%string.
Proof.
  revert st. induction diffs as [|[ns data] rest IH]; intros [[log b] r]; simpl.
  - now rewrite string_append_nil_r.
  - destruct (Contains namespaces ns); simpl; rewrite IH; simpl; [|reflexivity].
    unfold global_block. simpl. now rewrite <- !string_append_assoc.
Qed.

(** In global mode, when the scan does not exit and [MarshalIndent]
    succeeds, the formatter receives a concatenation of blocks, one block
    ([FormatOutputFromMap]'s text and a newline) for each entry of the
    scan's map whose namespace is a resolved namespace, each such entry
    exactly once and no other block; the order of the blocks is the
    iteration order of the map, which Go does not fix, hence the
    permutation. An error of the scan does not change this. The run
    returns the formatter's string with a nil error. *)
Theorem global_output_buffer (c : Cluster) (h : Helpers) (fo : FilterOptions)
    (l : IncludeExcludeLists) (outputFormat : string) (opts : Opts)
    (Hglobal : is_global_mode l = true) :
  match snd (collect c h fo l opts) with
  | Return (_, response) _ =>
      match snd (MarshalIndent h response) with
      | None =>
          exists m err entries,
            snd (getResourcesWithFinalizersPendingDeletion c h fo (SetNamespaceList h l)) = Return m err /\
            Permutation entries (filter (fun p => Contains (SetNamespaceList h l) (fst p)) m) /\
            snd (GetUnusedfinalizers c h fo l outputFormat opts) =
            Return (fst (unusedResourceFormatter h outputFormat
                           (render_blocks (map (global_block h opts) entries))
                           opts (fst (MarshalIndent h response)))) None
      | Some _ => True
      end
  | Exit _ => True
  end.
Proof.
  assert (B : match snd (collect c h fo l opts) with
              | Return (b', _) _ =>
                  exists m err,
                    snd (getResourcesWithFinalizersPendingDeletion c h fo (SetNamespaceList h l)) = Return m err /\
                    b' = render_blocks (map (global_block h opts)
                           (filter (fun p => Contains (SetNamespaceList h l) (fst p)) m))
              | Exit _ => True
              end).
  { unfold collect. fold (is_global_mode l). rewrite Hglobal.
    destruct (getResourcesWithFinalizersPendingDeletion c h fo (SetNamespaceList h l))
      as [ev0 [code|m err]]; cbv beta iota zeta; [exact I|].
    match goal with
    | |- context [global_report ?a ?b ?n ?d ?st] =>
        pose proof (global_report_buffer a b n d st) as G;
        destruct (global_report a b n d st) as [[lg b'] rsp]
    end.
    simpl in G |- *. exists m, err. split; [reflexivity|exact G]. }
  unfold GetUnusedfinalizers.
  destruct (collect c h fo l opts) as [log [code|[buf resp] err]]; simpl in *; [exact I|].
  destruct B as (m & err' & Sm & ->).
  destruct (MarshalIndent h resp) as [j [e|]]; simpl; [exact I|].
  exists m, err', (filter (fun p => Contains (SetNamespaceList h l) (fst p)) m).
  split; [exact Sm|split; [apply Permutation_refl|]].
  destruct (unusedResourceFormatter h outputFormat _ opts j) as [out [fe|]]; reflexivity.
Qed.

(** ** Instances of the properties with hypotheses *)

Lemma legacy_GetUnusedfinalizers_scoped_witness :
  let l := mkIncludeExcludeLists ["default"] [] in
  is_global_mode l = false /\
  Legacy.GetUnusedfinalizers (demo_cluster [cm_a; cm_b]) (demo_helpers ["default"]) demo_filter
    l "table" (mkOpts true true false) =
  GetUnusedfinalizers (demo_cluster [cm_a; cm_b]) (demo_helpers ["default"]) demo_filter
    l "table" (mkOpts true true false).
Proof.
  intros l. split; [reflexivity|].
  apply (legacy_GetUnusedfinalizers_scoped (demo_cluster [cm_a; cm_b]) (demo_helpers ["default"])
           demo_filter l "table" (mkOpts true true false)). reflexivity.
Defined.

Lemma global_scoped_same_name_lists_witness :
  let c := demo_cluster [cm_a; cm_b] in
  (forall gvr, DynamicList c gvr "default" =
     option_map (filter (fun item => String.eqb (GetNamespace item) "default"))
                (DynamicList c gvr NamespaceAll)) /\
  match snd (getResourcesWithFinalizersPendingDeletion c (demo_helpers ["default"]) demo_filter ["default"]),
        snd (getNamespacedResourcesWithFinalizersPendingDeletion c (demo_helpers ["default"]) demo_filter "default") with
  | Return mg _, Return ms _ => forall ty, index [] ty (index [] "default" mg) = index [] ty ms
  | Exit _, Exit _ => True
  | _, _ => False
  end.
Proof.
  intros c.
  assert (Hl : forall gvr, DynamicList c gvr "default" =
     option_map (filter (fun item => String.eqb (GetNamespace item) "default"))
                (DynamicList c gvr NamespaceAll)) by (intros gvr; reflexivity).
  split; [exact Hl|].
  exact (global_scoped_same_name_lists c (demo_helpers ["default"]) demo_filter ["default"] "default" Hl).
Defined.

Lemma dry_run_never_deletes_witness :
  DeleteFlag (mkOpts false true false) = false /\
  Forall (fun e => is_delete e = false)
    (fst (GetUnusedfinalizers (demo_cluster [cm_a; cm_b]) (demo_helpers ["default"]) demo_filter
            all_namespaces "table" (mkOpts false true false))).
Proof.
  split; [reflexivity|].
  apply (dry_run_never_deletes (demo_cluster [cm_a; cm_b]) (demo_helpers ["default"]) demo_filter
           all_namespaces "table" (mkOpts false true false)). reflexivity.
Defined.

Lemma global_delete_calls_witness :
  let c := demo_cluster [cm_a; cm_b] in
  let h := demo_helpers ["default"] in
  let opts := mkOpts true true false in
  is_global_mode all_namespaces = true /\ DeleteFlag opts = true /\
  match snd (getResourcesWithFinalizersPendingDeletion c h demo_filter (SetNamespaceList h all_namespaces)) with
  | Return m _ =>
      forall ns ty names b,
        In (EDeleteWithFinalizer ns ty names b)
           (fst (GetUnusedfinalizers c h demo_filter all_namespaces "table" opts)) <->
        b = NoInteractive opts /\ In ns (SetNamespaceList h all_namespaces) /\
        exists data, In (ns, data) m /\ In (ty, names) data
  | Exit _ => True
  end.
Proof.
  intros c h opts. split; [reflexivity|split; [reflexivity|]].
  apply (global_delete_calls c h demo_filter all_namespaces "table" opts); reflexivity.
Defined.

Lemma scoped_delete_calls_witness :
  let c := demo_cluster [cm_a; cm_b] in
  let h := demo_helpers ["default"] in
  let l := mkIncludeExcludeLists ["default"] [] in
  let opts := mkOpts true true false in
  is_global_mode l = false /\ DeleteFlag opts = true /\
  match snd (GetUnusedfinalizers c h demo_filter l "table" opts) with
  | Return _ _ =>
      forall ns ty names b,
        In (EDelete ns ty names b) (fst (GetUnusedfinalizers c h demo_filter l "table" opts)) <->
        b = NoInteractive opts /\ In ns (SetNamespaceList h l) /\
        exists m, snd (getNamespacedResourcesWithFinalizersPendingDeletion c h demo_filter ns) = Return m None /\
                  In (ty, names) m
  | Exit _ => True
  end.
Proof.
  intros c h l opts. split; [reflexivity|split; [reflexivity|]].
  apply (scoped_delete_calls c h demo_filter l "table" opts); reflexivity.
Defined.

Lemma global_scan_error_continues_witness :
  let c := bad_group_cluster [cm_a] in
  let h := demo_helpers ["default"] in
  let opts := mkOpts false true false in
  snd (getResourcesWithFinalizersPendingDeletion c h demo_filter (SetNamespaceList h all_namespaces)) =
    Return [("default", [("configmaps", ["cm-a"])])] (Some "unexpected GroupVersion string: apps/v1/x") /\
  In (EStderr DProcessResources) (fst (GetUnusedfinalizers c h demo_filter all_namespaces "table" opts)) /\
  match snd (collect c h demo_filter all_namespaces opts) with
  | Return (_, response) err =>
      err = None /\
      forall ns, In ns (keys response) <->
        In ns (SetNamespaceList h all_namespaces) /\ In ns (keys [("default", [("configmaps", ["cm-a"])])])
  | Exit _ => False
  end.
Proof.
  intros c h opts.
  assert (S : snd (getResourcesWithFinalizersPendingDeletion c h demo_filter (SetNamespaceList h all_namespaces)) =
    Return [("default", [("configmaps", ["cm-a"])])] (Some "unexpected GroupVersion string: apps/v1/x"))
    by (vm_compute; reflexivity).
  split; [exact S|].
  exact (global_scan_error_continues c h demo_filter all_namespaces "table" opts
           [("default", [("configmaps", ["cm-a"])])] "unexpected GroupVersion string: apps/v1/x"
           eq_refl S).
Defined.

Lemma scoped_output_buffer_witness :
  let c := demo_cluster [cm_a; cm_b] in
  let h := demo_helpers ["default"; "other"] in
  let l := mkIncludeExcludeLists ["default"; "other"] [] in
  let opts := mkOpts false true false in
  is_global_mode l = false /\
  match snd (collect c h demo_filter l opts) with
  | Return (_, response) _ =>
      match snd (MarshalIndent h response) with
      | None =>
          snd (GetUnusedfinalizers c h demo_filter l "table" opts) =
          Return (fst (unusedResourceFormatter h "table"
                         (render_blocks (map (scoped_block c h demo_filter opts) (SetNamespaceList h l)))
                         opts (fst (MarshalIndent h response)))) None
      | Some _ => True
      end
  | Exit _ => True
  end.
Proof.
  intros c h l opts. split; [reflexivity|].
  apply (scoped_output_buffer c h demo_filter l "table" opts). reflexivity.
Defined.

Lemma global_output_buffer_witness :
  let c := demo_cluster [cm_a; cm_b] in
  let h := demo_helpers ["default"] in
  let opts := mkOpts false true false in
  is_global_mode all_namespaces = true /\
  match snd (collect c h demo_filter all_namespaces opts) with
  | Return (_, response) _ =>
      match snd (MarshalIndent h response) with
      | None =>
          exists m err entries,
            snd (getResourcesWithFinalizersPendingDeletion c h demo_filter (SetNamespaceList h all_namespaces)) =
              Return m err /\
            Permutation entries (filter (fun p => Contains (SetNamespaceList h all_namespaces) (fst p)) m) /\
            snd (GetUnusedfinalizers c h demo_filter all_namespaces "table" opts) =
            Return (fst (unusedResourceFormatter h "table"
                           (render_blocks (map (global_block h opts) entries))
                           opts (fst (MarshalIndent h response)))) None
      | Some _ => True
      end
  | Exit _ => True
  end.
Proof.
  intros c h opts. split; [reflexivity|].
  apply (global_output_buffer c h demo_filter all_namespaces "table" opts). reflexivity.
Defined.
